(** * Dependency discovery of the default resource interpreter

    A shallow embedding of
    [pkg/resourceinterpreter/defaultinterpreter/dependencies.go]:
    the registry of per-kind dependency interpreters, the five extractors,
    [getDependenciesFromPodTemplate], [getServiceDependencies] and
    [getDependentServiceNames], followed by the properties the design
    document states about them.

    Go maps are stdpp [gmap]s, [sets.String] is [gset string], a nil-able
    map is an [option], a Go result pair [(value, error)] is a Rocq pair
    whose second component is [None] for a nil error. *)

From Stdlib Require Import Ascii.
From stdpp Require Import gmap strings list fin_maps sets.

(** ** Kubernetes API data, as far as the code reads it *)

(** [corev1.ServiceType] is a Go string type. *)
Definition ServiceType : Type := string.
Definition ServiceTypeClusterIP : ServiceType := "ClusterIP".
Definition ServiceTypeNodePort : ServiceType := "NodePort".
Definition ServiceTypeLoadBalancer : ServiceType := "LoadBalancer".
Definition ServiceTypeExternalName : ServiceType := "ExternalName".

(** [corev1.Service]: [service.Name], [service.Spec.Type] and
    [service.Spec.Selector]; the selector is a Go map that may be nil. *)
Record Service : Type := mkService {
  Service_Name : string;
  Service_Type : ServiceType;
  Service_Selector : option (gmap string string)
}.

(** ** The label selector of [k8s.io/apimachinery/pkg/labels] *)

(** Modelled from the spec: the package [k8s.io/apimachinery/pkg/labels]
    is a library outside the sources.  A selector built from a set is the
    list of its equality requirements, one per (key, value) pair. *)
Definition SelectorFromSet (ls : gmap string string) : list (string * string) :=
  map_to_list ls.

(** Modelled from the spec: [Selector.Matches] of the same library.  Every
    requirement must find its key in the label set with an equal value. *)
Definition Matches (sel : list (string * string)) (ls : gmap string string) : bool :=
  forallb (λ r, match ls !! r.1 with
                | Some v => String.eqb v r.2
                | None => false
                end) sel.

(** ** The service matcher *)

(** One turn of the loop of [getDependentServiceNames]: the two [continue]
    guards, then the selector test and the insertion. *)
Definition visitService (podLabels : gmap string string)
    (dependentServices : gset string) (service : Service) : gset string :=
  if String.eqb (Service_Type service) ServiceTypeLoadBalancer then dependentServices
  else match Service_Selector service with
       | None => dependentServices
       | Some selector =>
           if Matches (SelectorFromSet selector) podLabels
           then {[Service_Name service]} ∪ dependentServices
           else dependentServices
       end.

Definition getDependentServiceNames (podLabels : gmap string string)
    (serviceList : list Service) : gset string :=
  foldl (visitService podLabels) ∅ serviceList.

(** The services the loop inserts: those that pass both guards and whose
    selector pairs are all among the pod's labels. *)
Definition selects (podLabels : gmap string string) (service : Service) : Prop :=
  Service_Type service ≠ ServiceTypeLoadBalancer ∧
  ∃ selector, Service_Selector service = Some selector ∧
              ∀ k v, selector !! k = Some v → podLabels !! k = Some v.

(** ** Go values the extractors pass around *)

(** A Go [error] value, identified by what its [Error()] method prints. *)
Record error : Type := errorString { Error : string }.

(** [fmt.Errorf(format, err)] for a format that ends in its only verb [%v]:
    [prefix] is the format without the verb. *)
Definition Errorf (prefix : string) (err : error) : error :=
  errorString (prefix +:+ Error err).

(** [configv1alpha1.DependentObjectReference]. *)
Record DependentObjectReference : Type := mkRef {
  APIVersion : string;
  Kind : string;
  Namespace : string;
  Name : string
}.

(** [schema.GroupVersion] and [schema.GroupVersionKind]. *)
Record GroupVersion : Type := mkGV { gv_Group : string; gv_Version : string }.
Record GroupVersionKind : Type := mkGVK {
  gvk_Group : string;
  gvk_Version : string;
  gvk_Kind : string
}.

Definition WithKind (gv : GroupVersion) (kind : string) : GroupVersionKind :=
  mkGVK (gv_Group gv) (gv_Version gv) kind.

#[global] Instance error_eq_dec : EqDecision error.
Proof. solve_decision. Defined.
#[global] Instance DependentObjectReference_eq_dec : EqDecision DependentObjectReference.
Proof. solve_decision. Defined.
#[global] Instance GroupVersionKind_eq_dec : EqDecision GroupVersionKind.
Proof. solve_decision. Defined.
#[global] Instance GroupVersionKind_countable : Countable GroupVersionKind.
Proof.
  apply (inj_countable' (λ k, (gvk_Group k, gvk_Version k, gvk_Kind k))
                        (λ t, mkGVK t.1.1 t.1.2 t.2)).
  by intros [].
Defined.

(** Modelled from the spec: the group and version constants of [k8s.io/api]
    (a library outside the sources); the core group has the empty name. *)
Definition appsv1_SchemeGroupVersion : GroupVersion := mkGV "apps" "v1".
Definition batchv1_SchemeGroupVersion : GroupVersion := mkGV "batch" "v1".
Definition corev1_SchemeGroupVersion : GroupVersion := mkGV "" "v1".

(** Modelled from the spec: the kind names of [pkg/util], whose constants
    file is not part of the sources. *)
Definition DeploymentKind : string := "Deployment".
Definition JobKind : string := "Job".
Definition PodKind : string := "Pod".
Definition DaemonSetKind : string := "DaemonSet".
Definition StatefulSetKind : string := "StatefulSet".

(** ** The world an extractor runs in *)

(** [client.ListOptions], of which the code sets the namespace only. *)
Record ListOptions : Type := mkListOptions { ListOptions_Namespace : string }.

(** [client.Client], of which the code calls [List] on a [ServiceList]:
    the read fails with an error or fills in the items. *)
Record Client : Type := mkClient {
  List : ListOptions → error + list Service
}.

(** The order in which one [for k := range m] loop visits the keys of a Go
    map: any enumeration of the keys, each exactly once. *)
Record MapOrder : Type := mkMapOrder {
  keysOf : gset string → list string;
  keysOf_perm : ∀ s, keysOf s ≡ₚ elements s
}.

(** The state threaded through a call: the iteration orders the runtime
    will hand to the [range] loops still to come, and the log of the
    cluster reads performed so far. *)
Record World : Type := mkWorld {
  orders : nat → MapOrder;
  reads : list ListOptions
}.

Definition M (A : Type) : Type := World → A * World.

Definition ret {A : Type} (a : A) : M A := λ w, (a, w).

Definition bind {A B : Type} (m : M A) (k : A → M B) : M B :=
  λ w, let (a, w') := m w in k a w'.

Notation "x <- m ;; k" := (bind m (λ x, k))
  (at level 100, m at next level, right associativity, only parsing).

(** The keys of a set in the order of the next [range] loop. *)
Definition rangeKeys (s : gset string) : M (list string) :=
  λ w, (keysOf (orders w 0) s, mkWorld (λ n, orders w (S n)) (reads w)).

(** [cl.List(ctx, serviceList, opts)]: the read is logged, its outcome is
    the client's. *)
Definition callList (cl : Client) (opts : ListOptions) : M (error + list Service) :=
  λ w, (List cl opts, mkWorld (orders w) (reads w ++ [opts])).

(** ** Collaborators outside the sources *)

(** The typed workloads of [k8s.io/api], the generic object, the converters
    of [pkg/util/helper], [GetPodFromTemplate] and the two name scanners
    are used by the code but defined elsewhere: the extractors are
    embedded over any implementation of them. *)
Class Collaborators : Type := {
  Unstructured : Type;
  Deployment : Type;
  Job : Type;
  DaemonSet : Type;
  StatefulSet : Type;
  Pod : Type;
  PodTemplateSpec : Type;
  Object : Type;
  OwnerReference : Type;
  (* [object.GroupVersionKind()] *)
  Unstructured_GroupVersionKind : Unstructured → GroupVersionKind;
  (* [podObj.Namespace], [podObj.GetNamespace()] and [podObj.Labels] *)
  Pod_Namespace : Pod → string;
  Pod_Labels : Pod → gmap string string;
  (* [x.Spec.Template] and the conversion of [x] to [runtime.Object] *)
  Deployment_Spec_Template : Deployment → PodTemplateSpec;
  Deployment_Object : Deployment → Object;
  Job_Spec_Template : Job → PodTemplateSpec;
  Job_Object : Job → Object;
  DaemonSet_Spec_Template : DaemonSet → PodTemplateSpec;
  DaemonSet_Object : DaemonSet → Object;
  StatefulSet_Spec_Template : StatefulSet → PodTemplateSpec;
  StatefulSet_Object : StatefulSet → Object;
  (* package [helper] *)
  ConvertToDeployment : Unstructured → error + Deployment;
  ConvertToJob : Unstructured → error + Job;
  ConvertToPod : Unstructured → error + Pod;
  ConvertToDaemonSet : Unstructured → error + DaemonSet;
  ConvertToStatefulSet : Unstructured → error + StatefulSet;
  GetPodFromTemplate :
    PodTemplateSpec → Object → option OwnerReference → error + Pod;
  (* the scanners, both returning a [sets.String] *)
  getConfigMapNames : Pod → gset string;
  getSecretNames : Pod → gset string
}.

(** ** The extractors *)

Section Extractors.
Context `{Collaborators}.

(** What a Go function declared to return
    [([]configv1alpha1.DependentObjectReference, error)] hands back; a nil
    slice is the empty list. *)
Definition Result : Type := (list DependentObjectReference * option error)%type.

Definition dependenciesInterpreter : Type := Client → Unstructured → M Result.

Definition getServiceDependencies (cl : Client) (podObj : Pod) : M Result :=
  r <- callList cl (mkListOptions (Pod_Namespace podObj)) ;;
  match r with
  | inl err => ret ([], Some err)
  | inr items =>
      let dependentServices := getDependentServiceNames (Pod_Labels podObj) items in
      names <- rangeKeys dependentServices ;;
      let dependentObjectRef :=
        foldl (λ refs service,
                 refs ++ [mkRef "v1" "Service" (Pod_Namespace podObj) service])
              [] names in
      ret (dependentObjectRef, None)
  end.

Definition getDependenciesFromPodTemplate (cl : Client) (podObj : Pod) : M Result :=
  let dependentConfigMaps := getConfigMapNames podObj in
  let dependentSecrets := getSecretNames podObj in
  cms <- rangeKeys dependentConfigMaps ;;
  let dependentObjectRefs :=
    foldl (λ refs cm, refs ++ [mkRef "v1" "ConfigMap" (Pod_Namespace podObj) cm])
          [] cms in
  secrets <- rangeKeys dependentSecrets ;;
  let dependentObjectRefs :=
    foldl (λ refs secret,
             refs ++ [mkRef "v1" "Secret" (Pod_Namespace podObj) secret])
          dependentObjectRefs secrets in
  r <- getServiceDependencies cl podObj ;;
  match r.2 with
  | Some err => ret ([], Some err)
  | None => ret (dependentObjectRefs ++ r.1, None)
  end.

Definition getDeploymentDependencies (cl : Client) (object : Unstructured) : M Result :=
  match ConvertToDeployment object with
  | inl err =>
      ret ([], Some (Errorf "failed to convert Deployment from unstructured object: " err))
  | inr deploymentObj =>
      match GetPodFromTemplate (Deployment_Spec_Template deploymentObj)
                               (Deployment_Object deploymentObj) None with
      | inl err => ret ([], Some err)
      | inr podObj => getDependenciesFromPodTemplate cl podObj
      end
  end.

Definition getJobDependencies (cl : Client) (object : Unstructured) : M Result :=
  match ConvertToJob object with
  | inl err =>
      ret ([], Some (Errorf "failed to convert Job from unstructured object: " err))
  | inr jobObj =>
      match GetPodFromTemplate (Job_Spec_Template jobObj) (Job_Object jobObj) None with
      | inl err => ret ([], Some err)
      | inr podObj => getDependenciesFromPodTemplate cl podObj
      end
  end.

Definition getPodDependencies (cl : Client) (object : Unstructured) : M Result :=
  match ConvertToPod object with
  | inl err =>
      ret ([], Some (Errorf "failed to convert Pod from unstructured object: " err))
  | inr podObj => getDependenciesFromPodTemplate cl podObj
  end.

Definition getDaemonSetDependencies (cl : Client) (object : Unstructured) : M Result :=
  match ConvertToDaemonSet object with
  | inl err =>
      ret ([], Some (Errorf "failed to convert DaemonSet from unstructured object: " err))
  | inr daemonSetObj =>
      match GetPodFromTemplate (DaemonSet_Spec_Template daemonSetObj)
                               (DaemonSet_Object daemonSetObj) None with
      | inl err => ret ([], Some err)
      | inr podObj => getDependenciesFromPodTemplate cl podObj
      end
  end.

Definition getStatefulSetDependencies (cl : Client) (object : Unstructured) : M Result :=
  match ConvertToStatefulSet object with
  | inl err =>
      ret ([], Some (Errorf "failed to convert StatefulSet from unstructured object: " err))
  | inr statefulSetObj =>
      match GetPodFromTemplate (StatefulSet_Spec_Template statefulSetObj)
                               (StatefulSet_Object statefulSetObj) None with
      | inl err => ret ([], Some err)
      | inr podObj => getDependenciesFromPodTemplate cl podObj
      end
  end.

(** The registry: an empty map, then five assignments. *)
Definition getAllDefaultDependenciesInterpreter :
    gmap GroupVersionKind dependenciesInterpreter :=
  let s := ∅ in
  let s := <[WithKind appsv1_SchemeGroupVersion DeploymentKind := getDeploymentDependencies]> s in
  let s := <[WithKind batchv1_SchemeGroupVersion JobKind := getJobDependencies]> s in
  let s := <[WithKind corev1_SchemeGroupVersion PodKind := getPodDependencies]> s in
  let s := <[WithKind appsv1_SchemeGroupVersion DaemonSetKind := getDaemonSetDependencies]> s in
  let s := <[WithKind appsv1_SchemeGroupVersion StatefulSetKind := getStatefulSetDependencies]> s in
  s.

(** What the dispatcher reports: the result pair of the extractor it ran,
    or that it has none for the kind. *)
Inductive Signal : Type :=
| Extracted (result : Result)
| UnsupportedKind.

(** Modelled from the spec: the dispatcher that looks a workload's kind up
    in the registry and runs the extractor found there is not part of the
    sources.  Following section 4.1, a kind without an extractor yields
    the [UnsupportedKind] signal, distinct from anything an extractor
    returns. *)
Definition Dispatch (cl : Client) (object : Unstructured) : M Signal :=
  match getAllDefaultDependenciesInterpreter !! Unstructured_GroupVersionKind object with
  | None => ret UnsupportedKind
  | Some extractor => r <- extractor cl object ;; ret (Extracted r)
  end.

(** The two ways a call of an extractor on an object can go: it stops
    before it touches the world, with a nil list and an error, or it runs
    the pod pipeline on the pod it resolved from the object. *)
Definition stopsOrRuns (extractor : dependenciesInterpreter) : Prop :=
  ∀ object,
    (∃ err, ∀ cl w, extractor cl object w = (([], Some err), w)) ∨
    (∃ podObj, ∀ cl w, extractor cl object w = getDependenciesFromPodTemplate cl podObj w).

End Extractors.

(** The result of a call compared as a set of (kind, name) pairs. *)
Definition kindNameSet (refs : list DependentObjectReference) : gset (string * string) :=
  list_to_set ((λ r, (Kind r, Name r)) <$> refs).

(** The (kind, name, namespace) triple that identifies a reference. *)
Definition refKey (r : DependentObjectReference) : string * string * string :=
  (Kind r, Name r, Namespace r).

(** ** A small concrete cluster

    One implementation of the collaborators, on which the definitions above
    run: a pod model with the reference sites of section 4.3, and generic
    objects that either carry such a pod or cannot be converted. *)

Module Fixture.

Inductive Source : Type :=
| FromConfigMap (name : string)
| FromSecret (name : string).

(** A container: its bulk environment imports and the sources of its
    individual environment variables. *)
Record Container : Type := mkContainer {
  EnvFrom : list Source;
  Env : list Source
}.

Inductive Volume : Type :=
| ConfigMapVolume (name : string)
| SecretVolume (name : string)
| ProjectedVolume (sources : list Source)
| EmptyDirVolume.

Record PodSpec : Type := mkPodSpec {
  InitContainers : list Container;
  Containers : list Container;
  Volumes : list Volume;
  ImagePullSecrets : list string
}.

Record PodObj : Type := mkPodObj {
  pod_Namespace : string;
  pod_Labels : gmap string string;
  pod_Spec : PodSpec
}.

(** A generic object: its kind, and the pod it describes when its fields
    are all there. *)
Record Generic : Type := mkGeneric {
  generic_Kind : GroupVersionKind;
  generic_Body : option PodObj
}.

Definition configMapsIn (l : list Source) : list string :=
  omap (λ s, match s with FromConfigMap n => Some n | FromSecret _ => None end) l.

Definition secretsIn (l : list Source) : list string :=
  omap (λ s, match s with FromSecret n => Some n | FromConfigMap _ => None end) l.

Definition containerSources (spec : PodSpec) : list Source :=
  c ← InitContainers spec ++ Containers spec; EnvFrom c ++ Env c.

Definition volumeSources (spec : PodSpec) : list Source :=
  v ← Volumes spec;
  match v with
  | ConfigMapVolume n => [FromConfigMap n]
  | SecretVolume n => [FromSecret n]
  | ProjectedVolume l => l
  | EmptyDirVolume => []
  end.

(** Modelled from the spec: [getConfigMapNames] is not part of the
    sources.  Following section 4.3 it collects, into a set, the ConfigMap
    names of the environment imports and variables of every container and
    init container and of the volumes. *)
Definition scanConfigMapNames (p : PodObj) : gset string :=
  list_to_set (configMapsIn (containerSources (pod_Spec p) ++ volumeSources (pod_Spec p))).

(** Modelled from the spec: [getSecretNames] is not part of the sources.
    Following section 4.3 it collects the Secret names of the same sites
    and of the image-pull secrets. *)
Definition scanSecretNames (p : PodObj) : gset string :=
  list_to_set (secretsIn (containerSources (pod_Spec p) ++ volumeSources (pod_Spec p))
               ++ ImagePullSecrets (pod_Spec p)).

Definition convert (what : string) (object : Generic) : error + PodObj :=
  match generic_Body object with
  | Some p => inr p
  | None => inl (errorString (what +:+ ": required fields are missing"))
  end.

#[global] Instance collaborators : Collaborators := {|
  Unstructured := Generic;
  Deployment := PodObj;
  Job := PodObj;
  DaemonSet := PodObj;
  StatefulSet := PodObj;
  Pod := PodObj;
  PodTemplateSpec := PodObj;
  Object := PodObj;
  OwnerReference := unit;
  Unstructured_GroupVersionKind := generic_Kind;
  Pod_Namespace := pod_Namespace;
  Pod_Labels := pod_Labels;
  Deployment_Spec_Template := id;
  Deployment_Object := id;
  Job_Spec_Template := id;
  Job_Object := id;
  DaemonSet_Spec_Template := id;
  DaemonSet_Object := id;
  StatefulSet_Spec_Template := id;
  StatefulSet_Object := id;
  ConvertToDeployment := convert "Deployment";
  ConvertToJob := convert "Job";
  ConvertToPod := convert "Pod";
  ConvertToDaemonSet := convert "DaemonSet";
  ConvertToStatefulSet := convert "StatefulSet";
  GetPodFromTemplate := λ template _ _, inr template;
  getConfigMapNames := scanConfigMapNames;
  getSecretNames := scanSecretNames
|}.

(** Two iteration orders: that of [elements], and its reverse. *)
Definition ascending : MapOrder := mkMapOrder elements (λ s, Permutation_refl _).
Definition descending : MapOrder :=
  mkMapOrder (λ s, reverse (elements s)) (λ s, reverse_Permutation _).

Definition world0 : World := mkWorld (λ _, ascending) [].
Definition world1 : World := mkWorld (λ _, descending) [mkListOptions "kube-system"].

(** The pod of the examples: [app-config] is referenced by an environment
    variable and by a volume. *)
Definition webPod : PodObj :=
  mkPodObj "default" {["app" := "web"; "tier" := "frontend"]}
    (mkPodSpec []
       [mkContainer [FromSecret "db-pass"] [FromConfigMap "app-config"; FromConfigMap "flags"]]
       [ConfigMapVolume "app-config"; EmptyDirVolume]
       ["regcred"]).

Definition barePod : PodObj := mkPodObj "default" {["app" := "web"]} (mkPodSpec [] [] [] []).

Definition svc_a : Service := mkService "svc-a" ServiceTypeClusterIP (Some {["app" := "web"]}).
Definition svc_b : Service :=
  mkService "svc-b" ServiceTypeClusterIP (Some {["app" := "web"; "tier" := "backend"]}).
Definition svc_lb : Service := mkService "svc-lb" ServiceTypeLoadBalancer (Some {["app" := "web"]}).
Definition svc_nil : Service := mkService "svc-nil" ServiceTypeClusterIP None.
Definition svc_all : Service := mkService "svc-all" ServiceTypeNodePort (Some ∅).

Definition cluster : Client :=
  mkClient (λ _, inr [svc_a; svc_b; svc_lb; svc_nil; svc_all]).
Definition emptyCluster : Client := mkClient (λ _, inr []).
Definition unreachable : Client :=
  mkClient (λ _, inl (errorString "connection refused")).

Definition deployment (body : option PodObj) : Generic :=
  mkGeneric (WithKind appsv1_SchemeGroupVersion DeploymentKind) body.
Definition pod (body : option PodObj) : Generic :=
  mkGeneric (WithKind corev1_SchemeGroupVersion PodKind) body.
Definition job (body : option PodObj) : Generic :=
  mkGeneric (WithKind batchv1_SchemeGroupVersion JobKind) body.

(** A client that answers for the namespace [default] as [cluster] does,
    and fails for every other. *)
Definition defaultOnly : Client :=
  mkClient (λ opts,
    if String.eqb (ListOptions_Namespace opts) "default"
    then inr [svc_a; svc_b; svc_lb; svc_nil; svc_all]
    else inl (errorString "forbidden")).
Definition replicaSet (body : option PodObj) : Generic :=
  mkGeneric (WithKind appsv1_SchemeGroupVersion "ReplicaSet") body.

(** What the extractors return for [webPod] in [cluster] under [world0]. *)
Definition webRefs : list DependentObjectReference :=
  [mkRef "v1" "ConfigMap" "default" "app-config";
   mkRef "v1" "ConfigMap" "default" "flags";
   mkRef "v1" "Secret" "default" "regcred";
   mkRef "v1" "Secret" "default" "db-pass";
   mkRef "v1" "Service" "default" "svc-all";
   mkRef "v1" "Service" "default" "svc-a"].

End Fixture.

(** * Proxy headers

    A shallow embedding of [pkg/util/proxy/round_trippers.go]:
    [ParseProxyHeaders], the method [RoundTrip] of
    [ProxyHeaderRoundTripper] and
    [NewProxyHeaderRoundTripperWrapperConstructor].  An [http.Header] is a
    [gmap string (list string)], a nil header is [None]; transports live in
    a heap, since the method writes to the one it is handed. *)

(** Go's [strings.Split(s, sep)] for a separator of one byte: the pieces of
    [s] between the occurrences of [sep], in order.  A string without the
    separator is its own single piece, and so is the empty string. *)
Fixpoint Split (s : string) (sep : ascii) : list string :=
  match s with
  | EmptyString => [EmptyString]
  | String c rest =>
      if Ascii.eqb c sep then EmptyString :: Split rest sep
      else match Split rest sep with
           | piece :: pieces => String c piece :: pieces
           | [] => [String c EmptyString]
           end
  end.

(** The separator the code passes, [","]. *)
Definition comma : ascii := ","%char.

(** The loop of [ParseProxyHeaders] over the entries of [headers] in the
    order [entries] in which the runtime hands them out: one assignment
    [proxyHeaders[key] = strings.Split(values, ",")] per entry. *)
Definition assignProxyHeaders (entries : list (string * string)) :
    gmap string (list string) :=
  foldl (λ proxyHeaders entry, <[entry.1 := Split entry.2 comma]> proxyHeaders)
        ∅ entries.

(** [ParseProxyHeaders]: nil for a map of length 0 (nil or empty), else the
    map the loop fills.  The loop runs here in the order of [map_to_list];
    [assignProxyHeaders_any_order] shows that the order does not matter. *)
Definition ParseProxyHeaders (headers : gmap string string) :
    option (gmap string (list string)) :=
  if Nat.eqb (size headers) 0 then None
  else Some (assignProxyHeaders (map_to_list headers)).

(** The number of separators in a string. *)
Fixpoint countByte (sep : ascii) (s : string) : nat :=
  match s with
  | EmptyString => 0
  | String c rest => (if Ascii.eqb c sep then 1 else 0) + countByte sep rest
  end.

(** What [net/http] and the other round trippers do is outside the sources:
    requests, replies (the pair a round trip returns), the fields of
    [http.Transport] the code does not touch, the round trippers that are
    neither a transport nor the wrapper, and the [RoundTrip] methods of
    both. *)
Class NetHTTP : Type := {
  Request : Type;
  Reply : Type;
  TransportRest : Type;
  Foreign : Type
}.

Section RoundTrippers.
Context `{NetHTTP}.

(** [http.Transport]: the field [ProxyConnectHeader], and the rest. *)
Record Transport : Type := mkTransport {
  ProxyConnectHeader : option (gmap string (list string));
  Transport_rest : TransportRest
}.

(** The heap of transports: what the pointers of type [*http.Transport]
    point to.  A pointer without a cell is the nil pointer. *)
Definition Heap : Type := gmap positive Transport.

(** A value of the interface [http.RoundTripper]: nil, a
    [*http.Transport], a [*ProxyHeaderRoundTripper] with its two fields, or
    any other implementation. *)
Inductive RoundTripper : Type :=
| NilRoundTripper
| HttpTransport (tr : positive)
| ProxyHeaderRoundTripper (proxyHeaders : option (gmap string (list string)))
                          (roundTripper : RoundTripper)
| ForeignRoundTripper (rt : Foreign).

(** [transport.WrapperFunc]. *)
Definition WrapperFunc : Type := RoundTripper → RoundTripper.

Section Methods.
(** The [RoundTrip] of [http.Transport], which reads the transport, and the
    [RoundTrip] of the other implementations, which may do anything to the
    heap; [None] is a panic. *)
Variable Transport_RoundTrip : Transport → Request → Reply.
Variable Foreign_RoundTrip : Foreign → Request → Heap → option (Reply * Heap).

(** The call [rt.RoundTrip(req)] on an interface value.  The case of
    [ProxyHeaderRoundTripper] is the method of the sources: when the
    wrapped round tripper is a [*http.Transport], its field is overwritten
    and the transport does the round trip; otherwise the call is passed
    on.  A nil interface or pointer panics. *)
Fixpoint RoundTrip (rt : RoundTripper) (req : Request) (heap : Heap) :
    option (Reply * Heap) :=
  match rt with
  | NilRoundTripper => None
  | HttpTransport tr =>
      match heap !! tr with
      | None => None
      | Some transport => Some (Transport_RoundTrip transport req, heap)
      end
  | ForeignRoundTripper rt => Foreign_RoundTrip rt req heap
  | ProxyHeaderRoundTripper proxyHeaders roundTripper =>
      match roundTripper with
      | HttpTransport tr =>
          match heap !! tr with
          | None => None
          | Some transport =>
              let transport := mkTransport proxyHeaders (Transport_rest transport) in
              Some (Transport_RoundTrip transport req, <[tr := transport]> heap)
          end
      | _ => RoundTrip roundTripper req heap
      end
  end.

End Methods.

(** [NewProxyHeaderRoundTripperWrapperConstructor]; a nil [wt] is [None]. *)
Definition NewProxyHeaderRoundTripperWrapperConstructor
    (wt : option WrapperFunc) (headers : gmap string string) : WrapperFunc :=
  λ rt,
    let rt := match wt with
              | Some wt => wt rt
              | None => rt
              end in
    ProxyHeaderRoundTripper (ParseProxyHeaders headers) rt.

End RoundTrippers.

(** ** A small concrete network *)

Module Wire.

(** Requests are their URLs; a reply records the CONNECT headers the
    transport was configured with when it did the round trip. *)
#[global] Instance net : NetHTTP := {|
  Request := string;
  Reply := option (gmap string (list string)) * string;
  TransportRest := nat;
  Foreign := string
|}.

Definition send (transport : Transport) (req : string) :
    option (gmap string (list string)) * string :=
  (ProxyConnectHeader transport, req).

(** A foreign round tripper answers without a look at the heap. *)
Definition foreign (rt : string) (req : string) (heap : Heap) :
    option ((option (gmap string (list string)) * string) * Heap) :=
  Some ((None, rt +:+ req), heap).

Definition heap0 : Heap :=
  {[ 1%positive := mkTransport (Some {["Via" := ["old"]]}) 7;
     2%positive := mkTransport None 9 ]}.

Definition headers0 : gmap string string :=
  {["Proxy-Authorization" := "Basic abc"; "x-trace" := "a, b,,c"]}.

(** What [ParseProxyHeaders] makes of [headers0]. *)
Definition parsed0 : gmap string (list string) :=
  {["Proxy-Authorization" := ["Basic abc"]; "x-trace" := ["a"; " b"; ""; "c"]]}.

End Wire.

(** ** A stricter implementation of the collaborators

    The same as [Fixture.collaborators], but [GetPodFromTemplate] refuses a
    parent object without a namespace. *)

Module Strict.

Definition getPod (template parent : Fixture.PodObj) (controllerRef : option unit) :
    error + Fixture.PodObj :=
  if String.eqb (Fixture.pod_Namespace parent) "" then
    inl (errorString "parentObject does not have ObjectMeta")
  else inr template.

Definition collaborators : Collaborators := {|
  Unstructured := Fixture.Generic;
  Deployment := Fixture.PodObj;
  Job := Fixture.PodObj;
  DaemonSet := Fixture.PodObj;
  StatefulSet := Fixture.PodObj;
  Pod := Fixture.PodObj;
  PodTemplateSpec := Fixture.PodObj;
  Object := Fixture.PodObj;
  OwnerReference := unit;
  Unstructured_GroupVersionKind := Fixture.generic_Kind;
  Pod_Namespace := Fixture.pod_Namespace;
  Pod_Labels := Fixture.pod_Labels;
  Deployment_Spec_Template := id;
  Deployment_Object := id;
  Job_Spec_Template := id;
  Job_Object := id;
  DaemonSet_Spec_Template := id;
  DaemonSet_Object := id;
  StatefulSet_Spec_Template := id;
  StatefulSet_Object := id;
  ConvertToDeployment := Fixture.convert "Deployment";
  ConvertToJob := Fixture.convert "Job";
  ConvertToPod := Fixture.convert "Pod";
  ConvertToDaemonSet := Fixture.convert "DaemonSet";
  ConvertToStatefulSet := Fixture.convert "StatefulSet";
  GetPodFromTemplate := getPod;
  getConfigMapNames := Fixture.scanConfigMapNames;
  getSecretNames := Fixture.scanSecretNames
|}.

(** A pod template whose parent has no namespace. *)
Definition orphan : Fixture.PodObj :=
  Fixture.mkPodObj "" {["app" := "web"]} (Fixture.mkPodSpec [] [] [] []).

End Strict.

(** ** Properties of the selector model *)

Lemma Matches_SelectorFromSet (selector podLabels : gmap string string) :
  Matches (SelectorFromSet selector) podLabels = true ↔
  ∀ k v, selector !! k = Some v → podLabels !! k = Some v.
Proof.
  unfold Matches, SelectorFromSet. rewrite forallb_forall. split.
  - intros H k v Hkv.
    specialize (H (k, v)). simpl in H.
    assert (In (k, v) (map_to_list selector)) as Hin
      by (apply list_elem_of_In, elem_of_map_to_list, Hkv).
    specialize (H Hin). destruct (podLabels !! k) as [v'|]; [|done].
    apply String.eqb_eq in H. by subst.
  - intros H [k v] Hin. simpl.
    apply list_elem_of_In, elem_of_map_to_list in Hin.
    rewrite (H k v Hin). apply String.eqb_refl.
Qed.

Lemma visitService_elem podLabels acc service name :
  name ∈ visitService podLabels acc service ↔
  name ∈ acc ∨ (name = Service_Name service ∧ selects podLabels service).
Proof.
  unfold visitService, selects.
  destruct (String.eqb_spec (Service_Type service) ServiceTypeLoadBalancer) as [Hlb|Hlb].
  { split; [tauto|]. intros [?|(_ & Hne & _)]; [done|]. by destruct Hne. }
  destruct (Service_Selector service) as [selector|].
  2:{ split; [tauto|]. intros [?|(_ & _ & sel' & Hsel & _)]; [done|]. discriminate Hsel. }
  destruct (Matches (SelectorFromSet selector) podLabels) eqn:Hm.
  - pose proof (proj1 (Matches_SelectorFromSet _ _) Hm) as Hall.
    rewrite elem_of_union, elem_of_singleton. split.
    + intros [->|?]; [|tauto]. right. split; [done|]. split; [done|]. by exists selector.
    + intros [?|[-> _]]; tauto.
  - split; [tauto|]. intros [?|(_ & _ & sel' & Hsel & Hall)]; [done|].
    injection Hsel as <-.
    pose proof (proj2 (Matches_SelectorFromSet _ _) Hall) as Hm'. congruence.
Qed.

Lemma foldl_visitService_elem podLabels serviceList acc name :
  name ∈ foldl (visitService podLabels) acc serviceList ↔
  name ∈ acc ∨ ∃ service, service ∈ serviceList ∧
                          name = Service_Name service ∧ selects podLabels service.
Proof.
  revert acc. induction serviceList as [|s l IH]; intros acc; simpl.
  - split; [tauto|]. intros [?|(s & Hs & _)]; [done|]. by apply elem_of_nil in Hs.
  - rewrite IH, visitService_elem. split.
    + intros [[?|[-> Hsel]]|(s' & Hin & Hn & Hsel)].
      * by left.
      * right. exists s. split; [apply list_elem_of_here|done].
      * right. exists s'. split; [by apply list_elem_of_further|done].
    + intros [?|(s' & Hin & Hn & Hsel)]; [tauto|].
      apply elem_of_cons in Hin as [->|Hin]; [tauto|].
      right. by exists s'.
Qed.

(** The matcher returns exactly the names of the services that pass. *)
Lemma getDependentServiceNames_elem podLabels serviceList name :
  name ∈ getDependentServiceNames podLabels serviceList ↔
  ∃ service, service ∈ serviceList ∧
             name = Service_Name service ∧ selects podLabels service.
Proof.
  unfold getDependentServiceNames. rewrite foldl_visitService_elem.
  split; [|by right]. intros [H|H]; [|done]. by apply not_elem_of_empty in H.
Qed.

(** A service in the middle of the list adds its own name, if it passes,
    to what the rest of the list yields. *)
Lemma getDependentServiceNames_middle podLabels before service after name :
  name ∈ getDependentServiceNames podLabels (before ++ service :: after) ↔
  name ∈ getDependentServiceNames podLabels (before ++ after) ∨
  (name = Service_Name service ∧ selects podLabels service).
Proof.
  rewrite !getDependentServiceNames_elem. split.
  - intros (s & Hin & Hn & Hsel).
    apply elem_of_app in Hin as [Hin|Hin].
    + left. exists s. split; [apply elem_of_app; by left|done].
    + apply elem_of_cons in Hin as [->|Hin]; [by right|].
      left. exists s. split; [apply elem_of_app; by right|done].
  - intros [(s & Hin & Hn & Hsel)|[Hn Hsel]].
    + exists s. split; [|done].
      apply elem_of_app in Hin as [Hin|Hin]; apply elem_of_app; [by left|].
      right. by apply list_elem_of_further.
    + exists service. split; [|done].
      apply elem_of_app. right. apply list_elem_of_here.
Qed.

(** A service that does not pass leaves the result as it is without it. *)
Lemma getDependentServiceNames_skip podLabels before service after :
  ¬ selects podLabels service →
  getDependentServiceNames podLabels (before ++ service :: after) =
  getDependentServiceNames podLabels (before ++ after).
Proof.
  intros Hno. apply set_eq. intros name.
  rewrite getDependentServiceNames_middle. tauto.
Qed.

(** A name that no service of the list carries is not in the result. *)
Lemma getDependentServiceNames_fresh podLabels serviceList name :
  name ∉ Service_Name <$> serviceList →
  name ∉ getDependentServiceNames podLabels serviceList.
Proof.
  intros Hfresh (s & Hin & -> & _)%getDependentServiceNames_elem.
  apply Hfresh, list_elem_of_fmap. by exists s.
Qed.

(** ** The service matcher: claims C1, C2 and C3 *)

(** C1. A Service whose selector is nil is excluded from the result of the
    service matcher, whatever the pod's labels and the rest of the list:
    the result is the one obtained without that Service, and when no other
    Service of the list carries its name, the name is not in the result. *)
Theorem nil_selector_is_excluded
    (podLabels : gmap string string) (before after : list Service) (service : Service) :
  Service_Selector service = None →
  getDependentServiceNames podLabels (before ++ service :: after) =
    getDependentServiceNames podLabels (before ++ after)
  ∧ (Service_Name service ∉ Service_Name <$> (before ++ after) →
     Service_Name service ∉ getDependentServiceNames podLabels (before ++ service :: after)).
Proof.
  intros Hnil.
  assert (¬ selects podLabels service) as Hno.
  { intros (_ & selector & Hsel & _). congruence. }
  split.
  - by apply getDependentServiceNames_skip.
  - intros Hfresh. rewrite getDependentServiceNames_skip by done.
    by apply getDependentServiceNames_fresh.
Qed.

Lemma nil_selector_is_excluded_witness :
  Service_Selector Fixture.svc_nil = None ∧
  getDependentServiceNames {["app" := "web"]}
    ([Fixture.svc_a] ++ Fixture.svc_nil :: [Fixture.svc_all]) =
    getDependentServiceNames {["app" := "web"]} ([Fixture.svc_a] ++ [Fixture.svc_all])
  ∧ (Service_Name Fixture.svc_nil ∉ Service_Name <$> ([Fixture.svc_a] ++ [Fixture.svc_all]) →
     Service_Name Fixture.svc_nil ∉
       getDependentServiceNames {["app" := "web"]}
         ([Fixture.svc_a] ++ Fixture.svc_nil :: [Fixture.svc_all])).
Proof.
  split; [reflexivity|].
  apply (nil_selector_is_excluded {["app" := "web"]} [Fixture.svc_a] [Fixture.svc_all]
           Fixture.svc_nil).
  reflexivity.
Defined.

(** C3. A Service of type LoadBalancer is excluded from the result of the
    service matcher unconditionally, also when its selector matches the
    pod's labels: the result is the one obtained without that Service, and
    when no other Service of the list carries its name, the name is not in
    the result. *)
Theorem load_balancer_is_excluded
    (podLabels : gmap string string) (before after : list Service) (service : Service) :
  Service_Type service = ServiceTypeLoadBalancer →
  getDependentServiceNames podLabels (before ++ service :: after) =
    getDependentServiceNames podLabels (before ++ after)
  ∧ (Service_Name service ∉ Service_Name <$> (before ++ after) →
     Service_Name service ∉ getDependentServiceNames podLabels (before ++ service :: after)).
Proof.
  intros Hlb.
  assert (¬ selects podLabels service) as Hno.
  { intros (Hne & _). by apply Hne. }
  split.
  - by apply getDependentServiceNames_skip.
  - intros Hfresh. rewrite getDependentServiceNames_skip by done.
    by apply getDependentServiceNames_fresh.
Qed.

Lemma load_balancer_is_excluded_witness :
  Service_Type Fixture.svc_lb = ServiceTypeLoadBalancer ∧
  getDependentServiceNames {["app" := "web"]}
    ([Fixture.svc_a] ++ Fixture.svc_lb :: [Fixture.svc_nil]) =
    getDependentServiceNames {["app" := "web"]} ([Fixture.svc_a] ++ [Fixture.svc_nil])
  ∧ (Service_Name Fixture.svc_lb ∉ Service_Name <$> ([Fixture.svc_a] ++ [Fixture.svc_nil]) →
     Service_Name Fixture.svc_lb ∉
       getDependentServiceNames {["app" := "web"]}
         ([Fixture.svc_a] ++ Fixture.svc_lb :: [Fixture.svc_nil])).
Proof.
  split; [reflexivity|].
  apply (load_balancer_is_excluded {["app" := "web"]} [Fixture.svc_a] [Fixture.svc_nil]
           Fixture.svc_lb).
  reflexivity.
Defined.

(** C2. For a Service with a non-nil selector and a type other than
    LoadBalancer: if every (key, value) pair of the selector is in the
    pod's label map, its name is in the result; when no other Service of
    the list carries its name, the name is in the result if and only if
    every pair of the selector is in the label map; and labels added to the
    pod under keys the selector does not mention keep the name in the
    result. *)
Theorem selector_is_a_conjunction
    (podLabels : gmap string string) (before after : list Service) (service : Service)
    (selector : gmap string string) :
  Service_Type service ≠ ServiceTypeLoadBalancer →
  Service_Selector service = Some selector →
  ((∀ k v, selector !! k = Some v → podLabels !! k = Some v) →
   Service_Name service ∈ getDependentServiceNames podLabels (before ++ service :: after))
  ∧ (Service_Name service ∉ Service_Name <$> (before ++ after) →
     (Service_Name service ∈ getDependentServiceNames podLabels (before ++ service :: after)
      ↔ ∀ k v, selector !! k = Some v → podLabels !! k = Some v))
  ∧ (∀ extra : gmap string string,
       (∀ k, is_Some (selector !! k) → extra !! k = None) →
       (∀ k v, selector !! k = Some v → podLabels !! k = Some v) →
       Service_Name service ∈
         getDependentServiceNames (extra ∪ podLabels) (before ++ service :: after)).
Proof.
  intros Htype Hsel.
  assert (∀ labels : gmap string string,
            (∀ k v, selector !! k = Some v → labels !! k = Some v) →
            Service_Name service ∈ getDependentServiceNames labels (before ++ service :: after))
    as Hin.
  { intros labels Hall. apply getDependentServiceNames_middle. right.
    split; [done|]. split; [done|]. by exists selector. }
  split; [by apply Hin|]. split.
  - intros Hfresh. split; [|by apply Hin].
    intros [Hrest|[_ (_ & selector' & Hsel' & Hall)]]%getDependentServiceNames_middle.
    + by apply getDependentServiceNames_fresh in Hrest.
    + rewrite Hsel in Hsel'. by injection Hsel' as <-.
  - intros extra Hextra Hall. apply Hin. intros k v Hkv.
    apply lookup_union_Some_raw. right. split; [|by apply Hall].
    apply Hextra. by exists v.
Qed.

Lemma selector_is_a_conjunction_witness :
  Service_Type Fixture.svc_a ≠ ServiceTypeLoadBalancer ∧
  Service_Selector Fixture.svc_a = Some {["app" := "web"]} ∧
  Service_Name Fixture.svc_a ∈
    getDependentServiceNames {["app" := "web"; "tier" := "frontend"]}
      ([Fixture.svc_lb] ++ Fixture.svc_a :: [Fixture.svc_b]).
Proof.
  assert (Service_Type Fixture.svc_a ≠ ServiceTypeLoadBalancer) as Htype by discriminate.
  split; [exact Htype|]. split; [reflexivity|].
  refine (proj1 (selector_is_a_conjunction {["app" := "web"; "tier" := "frontend"]}
           [Fixture.svc_lb] [Fixture.svc_b] Fixture.svc_a {["app" := "web"]} Htype eq_refl) _).
  intros k v Hkv.
  apply lookup_singleton_Some in Hkv as [<- <-].
  reflexivity.
Defined.

(** ** What a run of the pod pipeline computes *)

Section Runs.
Context `{Collaborators}.

(** A loop that appends one element per key builds the image of the keys. *)
Lemma foldl_append_fmap {A B : Type} (f : A → B) (acc : list B) (l : list A) :
  foldl (λ refs x, refs ++ [f x]) acc l = acc ++ (f <$> l).
Proof.
  revert acc. induction l as [|x l IH]; intros acc; simpl.
  - by rewrite app_nil_r.
  - by rewrite IH, <- app_assoc.
Qed.

Lemma getServiceDependencies_run (cl : Client) (podObj : Pod) (w : World) :
  getServiceDependencies cl podObj w =
  let opts := mkListOptions (Pod_Namespace podObj) in
  match List cl opts with
  | inl err => (([], Some err), mkWorld (orders w) (reads w ++ [opts]))
  | inr items =>
      ((mkRef "v1" "Service" (Pod_Namespace podObj) <$>
          keysOf (orders w 0) (getDependentServiceNames (Pod_Labels podObj) items),
        None),
       mkWorld (λ n, orders w (S n)) (reads w ++ [opts]))
  end.
Proof.
  unfold getServiceDependencies, bind, callList, rangeKeys, ret. simpl.
  destruct (List cl _) as [err|items]; simpl; [done|].
  by rewrite foldl_append_fmap.
Qed.

Lemma getDependenciesFromPodTemplate_run (cl : Client) (podObj : Pod) (w : World) :
  getDependenciesFromPodTemplate cl podObj w =
  let opts := mkListOptions (Pod_Namespace podObj) in
  match List cl opts with
  | inl err => (([], Some err), mkWorld (λ n, orders w (S (S n))) (reads w ++ [opts]))
  | inr items =>
      (((mkRef "v1" "ConfigMap" (Pod_Namespace podObj) <$>
           keysOf (orders w 0) (getConfigMapNames podObj)) ++
        (mkRef "v1" "Secret" (Pod_Namespace podObj) <$>
           keysOf (orders w 1) (getSecretNames podObj)) ++
        (mkRef "v1" "Service" (Pod_Namespace podObj) <$>
           keysOf (orders w 2) (getDependentServiceNames (Pod_Labels podObj) items)),
        None),
       mkWorld (λ n, orders w (S (S (S n)))) (reads w ++ [opts]))
  end.
Proof.
  unfold getDependenciesFromPodTemplate, bind, rangeKeys, ret. simpl.
  rewrite getServiceDependencies_run. simpl.
  destruct (List cl _) as [err|items]; simpl; [done|].
  by rewrite !foldl_append_fmap, app_nil_l, <- app_assoc.
Qed.

Lemma getDeploymentDependencies_stopsOrRuns : stopsOrRuns getDeploymentDependencies.
Proof.
  intros object. unfold getDeploymentDependencies.
  destruct (ConvertToDeployment object) as [err|typed]; [left; by eexists|].
  destruct (GetPodFromTemplate _ _ _) as [err|podObj]; [left; by eexists|].
  right. by exists podObj.
Qed.

Lemma getJobDependencies_stopsOrRuns : stopsOrRuns getJobDependencies.
Proof.
  intros object. unfold getJobDependencies.
  destruct (ConvertToJob object) as [err|typed]; [left; by eexists|].
  destruct (GetPodFromTemplate _ _ _) as [err|podObj]; [left; by eexists|].
  right. by exists podObj.
Qed.

Lemma getPodDependencies_stopsOrRuns : stopsOrRuns getPodDependencies.
Proof.
  intros object. unfold getPodDependencies.
  destruct (ConvertToPod object) as [err|podObj]; [left; by eexists|].
  right. by exists podObj.
Qed.

Lemma getDaemonSetDependencies_stopsOrRuns : stopsOrRuns getDaemonSetDependencies.
Proof.
  intros object. unfold getDaemonSetDependencies.
  destruct (ConvertToDaemonSet object) as [err|typed]; [left; by eexists|].
  destruct (GetPodFromTemplate _ _ _) as [err|podObj]; [left; by eexists|].
  right. by exists podObj.
Qed.

Lemma getStatefulSetDependencies_stopsOrRuns : stopsOrRuns getStatefulSetDependencies.
Proof.
  intros object. unfold getStatefulSetDependencies.
  destruct (ConvertToStatefulSet object) as [err|typed]; [left; by eexists|].
  destruct (GetPodFromTemplate _ _ _) as [err|podObj]; [left; by eexists|].
  right. by exists podObj.
Qed.

(** The entries of the registry, read back. *)
Lemma registry_lookup (gvk : GroupVersionKind) (extractor : dependenciesInterpreter) :
  getAllDefaultDependenciesInterpreter !! gvk = Some extractor ↔
  (gvk = WithKind appsv1_SchemeGroupVersion DeploymentKind
     ∧ extractor = getDeploymentDependencies)
  ∨ (gvk = WithKind batchv1_SchemeGroupVersion JobKind ∧ extractor = getJobDependencies)
  ∨ (gvk = WithKind corev1_SchemeGroupVersion PodKind ∧ extractor = getPodDependencies)
  ∨ (gvk = WithKind appsv1_SchemeGroupVersion DaemonSetKind
     ∧ extractor = getDaemonSetDependencies)
  ∨ (gvk = WithKind appsv1_SchemeGroupVersion StatefulSetKind
     ∧ extractor = getStatefulSetDependencies).
Proof.
  unfold getAllDefaultDependenciesInterpreter.
  rewrite !lookup_insert_Some, lookup_empty.
  split.
  - intros [[<- <-]|[_ [[<- <-]|[_ [[<- <-]|[_ [[<- <-]|[_ [[<- <-]|[_ ?]]]]]]]]]];
      try done; tauto.
  - intros [[-> ->]|[[-> ->]|[[-> ->]|[[-> ->]|[-> ->]]]]].
    + right. split; [done|]. right. split; [done|]. right. split; [done|].
      right. split; [done|]. by left.
    + right. split; [done|]. right. split; [done|]. right. split; [done|]. by left.
    + right. split; [done|]. right. split; [done|]. by left.
    + right. split; [done|]. by left.
    + by left.
Qed.

Lemma registry_stopsOrRuns gvk extractor :
  getAllDefaultDependenciesInterpreter !! gvk = Some extractor → stopsOrRuns extractor.
Proof.
  intros [[_ ->]|[[_ ->]|[[_ ->]|[[_ ->]|[_ ->]]]]]%registry_lookup.
  - apply getDeploymentDependencies_stopsOrRuns.
  - apply getJobDependencies_stopsOrRuns.
  - apply getPodDependencies_stopsOrRuns.
  - apply getDaemonSetDependencies_stopsOrRuns.
  - apply getStatefulSetDependencies_stopsOrRuns.
Qed.

(** A [range] loop visits every key, and none twice. *)
Lemma keysOf_NoDup (o : MapOrder) (s : gset string) : NoDup (keysOf o s).
Proof. rewrite (keysOf_perm o s). apply NoDup_elements. Qed.

Lemma elem_of_keysOf (o : MapOrder) (s : gset string) (x : string) :
  x ∈ keysOf o s ↔ x ∈ s.
Proof. rewrite (keysOf_perm o s). apply elem_of_elements. Qed.

(** The shape of a successful result of the pod pipeline: three groups,
    each the image of one [range] loop. *)
Lemma getDependenciesFromPodTemplate_ok cl podObj w refs :
  (getDependenciesFromPodTemplate cl podObj w).1 = (refs, None) →
  ∃ items, List cl (mkListOptions (Pod_Namespace podObj)) = inr items ∧
    refs =
      (mkRef "v1" "ConfigMap" (Pod_Namespace podObj) <$>
         keysOf (orders w 0) (getConfigMapNames podObj)) ++
      (mkRef "v1" "Secret" (Pod_Namespace podObj) <$>
         keysOf (orders w 1) (getSecretNames podObj)) ++
      (mkRef "v1" "Service" (Pod_Namespace podObj) <$>
         keysOf (orders w 2) (getDependentServiceNames (Pod_Labels podObj) items)).
Proof.
  rewrite getDependenciesFromPodTemplate_run. simpl.
  destruct (List cl _) as [err|items]; simpl; [discriminate|].
  intros [= <-]. by exists items.
Qed.

Lemma getDependenciesFromPodTemplate_failed cl podObj w err :
  List cl (mkListOptions (Pod_Namespace podObj)) = inl err →
  getDependenciesFromPodTemplate cl podObj w =
    (([], Some err),
     mkWorld (λ n, orders w (S (S n)))
             (reads w ++ [mkListOptions (Pod_Namespace podObj)])).
Proof. intros Herr. rewrite getDependenciesFromPodTemplate_run. simpl. by rewrite Herr. Qed.

(** Whatever the outcome, the pod pipeline performs exactly one read. *)
Lemma getDependenciesFromPodTemplate_reads cl podObj w :
  reads (getDependenciesFromPodTemplate cl podObj w).2 =
  reads w ++ [mkListOptions (Pod_Namespace podObj)].
Proof.
  rewrite getDependenciesFromPodTemplate_run. simpl.
  by destruct (List cl _).
Qed.

(** Which references a successful result holds, whatever the orders. *)
Lemma getDependenciesFromPodTemplate_elem cl podObj w refs :
  (getDependenciesFromPodTemplate cl podObj w).1 = (refs, None) →
  ∃ items, List cl (mkListOptions (Pod_Namespace podObj)) = inr items ∧
    ∀ r, r ∈ refs ↔
      ∃ name, (r = mkRef "v1" "ConfigMap" (Pod_Namespace podObj) name
                 ∧ name ∈ getConfigMapNames podObj)
              ∨ (r = mkRef "v1" "Secret" (Pod_Namespace podObj) name
                 ∧ name ∈ getSecretNames podObj)
              ∨ (r = mkRef "v1" "Service" (Pod_Namespace podObj) name
                 ∧ name ∈ getDependentServiceNames (Pod_Labels podObj) items).
Proof.
  intros (items & Hitems & ->)%getDependenciesFromPodTemplate_ok.
  exists items. split; [done|]. intros r.
  rewrite !elem_of_app, !list_elem_of_fmap. split.
  - intros [(name & -> & Hin)|[(name & -> & Hin)|(name & -> & Hin)]];
      apply elem_of_keysOf in Hin; exists name; tauto.
  - intros (name & [[-> Hin]|[[-> Hin]|[-> Hin]]]).
    + left. exists name. by rewrite elem_of_keysOf.
    + right. left. exists name. by rewrite elem_of_keysOf.
    + right. right. exists name. by rewrite elem_of_keysOf.
Qed.

End Runs.

(** ** The extractors: claims C4 to C10 *)

Section Claims.
Context `{Collaborators}.

Lemma refKey_image_NoDup (kind ns : string) (o : MapOrder) (s : gset string) :
  NoDup (refKey <$> (mkRef "v1" kind ns <$> keysOf o s)).
Proof.
  rewrite <- list_fmap_compose. apply NoDup_fmap_2_strong; [|apply keysOf_NoDup].
  intros x y _ _ Heq. by injection Heq.
Qed.

Lemma refKey_image_kind (kind ns : string) (names : list string) k :
  k ∈ refKey <$> (mkRef "v1" kind ns <$> names) → k.1.1 = kind.
Proof.
  intros (r & -> & (name & -> & _)%list_elem_of_fmap)%list_elem_of_fmap. done.
Qed.

(** C4. The dependency list an extractor returns holds at most one
    reference per (kind, name, namespace) triple, and holds the triple of
    every ConfigMap and Secret name the scanners found and of every Service
    name the matcher found, so each of them appears exactly once however
    many reference sites mention it. *)
Theorem references_are_unique
    (gvk : GroupVersionKind) (extractor : dependenciesInterpreter)
    (cl : Client) (object : Unstructured) (w : World)
    (refs : list DependentObjectReference) :
  getAllDefaultDependenciesInterpreter !! gvk = Some extractor →
  (extractor cl object w).1 = (refs, None) →
  NoDup (refKey <$> refs) ∧
  ∃ podObj items,
    extractor cl object w = getDependenciesFromPodTemplate cl podObj w ∧
    List cl (mkListOptions (Pod_Namespace podObj)) = inr items ∧
    ∀ kind name ns,
      (kind, name, ns) ∈ refKey <$> refs ↔
      ns = Pod_Namespace podObj ∧
      ((kind = "ConfigMap" ∧ name ∈ getConfigMapNames podObj)
       ∨ (kind = "Secret" ∧ name ∈ getSecretNames podObj)
       ∨ (kind = "Service" ∧
          name ∈ getDependentServiceNames (Pod_Labels podObj) items)).
Proof.
  intros Hreg Hres.
  destruct (registry_stopsOrRuns _ _ Hreg object) as [[err Hstop]|[podObj Hrun]].
  { rewrite Hstop in Hres. discriminate Hres. }
  rewrite Hrun in Hres. split.
  - apply getDependenciesFromPodTemplate_ok in Hres as (items & _ & ->).
    rewrite !fmap_app. rewrite !NoDup_app.
    split; [apply refKey_image_NoDup|]. split.
    { intros k Hk [Hk'|Hk']%elem_of_app;
        apply refKey_image_kind in Hk; apply refKey_image_kind in Hk'; congruence. }
    split; [apply refKey_image_NoDup|]. split; [|apply refKey_image_NoDup].
    intros k Hk Hk'.
    apply refKey_image_kind in Hk; apply refKey_image_kind in Hk'; congruence.
  - exists podObj.
    destruct (getDependenciesFromPodTemplate_elem _ _ _ _ Hres) as (items & Hitems & Helem).
    exists items. split; [by rewrite Hrun|]. split; [done|].
    intros kind name ns. rewrite list_elem_of_fmap. split.
    + intros (r & Hkey & Hin). apply Helem in Hin as (name' & Hcase).
      destruct Hcase as [[-> Hin]|[[-> Hin]|[-> Hin]]];
        injection Hkey as -> -> ->; tauto.
    + intros [-> [[-> Hin]|[[-> Hin]|[-> Hin]]]].
      * exists (mkRef "v1" "ConfigMap" (Pod_Namespace podObj) name).
        split; [done|]. apply Helem. exists name. tauto.
      * exists (mkRef "v1" "Secret" (Pod_Namespace podObj) name).
        split; [done|]. apply Helem. exists name. tauto.
      * exists (mkRef "v1" "Service" (Pod_Namespace podObj) name).
        split; [done|]. apply Helem. exists name. tauto.
Qed.

(** C5. When the Service-list read fails, the pod pipeline returns the
    error of the read itself and a nil list, whatever ConfigMap and Secret
    references it had collected; so does every extractor of the registry
    whose call performed that read. *)
Theorem list_failure_is_propagated (cl : Client) (opts : ListOptions) (err : error) :
  List cl opts = inl err →
  (∀ podObj w,
     mkListOptions (Pod_Namespace podObj) = opts →
     (getServiceDependencies cl podObj w).1 = ([], Some err) ∧
     (getDependenciesFromPodTemplate cl podObj w).1 = ([], Some err))
  ∧ (∀ gvk extractor object w,
       getAllDefaultDependenciesInterpreter !! gvk = Some extractor →
       reads (extractor cl object w).2 = reads w ++ [opts] →
       (extractor cl object w).1 = ([], Some err)).
Proof.
  intros Herr. split.
  - intros podObj w <-. split.
    + rewrite getServiceDependencies_run. simpl. by rewrite Herr.
    + by rewrite (getDependenciesFromPodTemplate_failed _ _ _ err).
  - intros gvk extractor object w Hreg Hreads.
    destruct (registry_stopsOrRuns _ _ Hreg object) as [[err' Hstop]|[podObj Hrun]].
    + rewrite Hstop in Hreads. simpl in Hreads.
      apply (f_equal length) in Hreads. rewrite length_app in Hreads.
      simpl in Hreads. lia.
    + rewrite Hrun in Hreads |- *.
      rewrite getDependenciesFromPodTemplate_reads in Hreads.
      apply app_inj_tail in Hreads as [_ Hopts].
      rewrite (getDependenciesFromPodTemplate_failed _ _ _ err); [done|].
      by rewrite Hopts.
Qed.

(** C6. For each of the five kinds, when the conversion of the generic
    object fails, the extractor returns a nil list and the error built
    from the kind's message and the cause, for every client and without
    any change to the world: no read is performed and nothing is left
    behind for later calls. *)
Theorem conversion_failure_is_reported
    (cl : Client) (object : Unstructured) (w : World) (cause : error) :
  (ConvertToDeployment object = inl cause →
   getDeploymentDependencies cl object w =
     (([], Some (Errorf "failed to convert Deployment from unstructured object: " cause)),
      w))
  ∧ (ConvertToJob object = inl cause →
     getJobDependencies cl object w =
       (([], Some (Errorf "failed to convert Job from unstructured object: " cause)), w))
  ∧ (ConvertToPod object = inl cause →
     getPodDependencies cl object w =
       (([], Some (Errorf "failed to convert Pod from unstructured object: " cause)), w))
  ∧ (ConvertToDaemonSet object = inl cause →
     getDaemonSetDependencies cl object w =
       (([], Some (Errorf "failed to convert DaemonSet from unstructured object: " cause)),
        w))
  ∧ (ConvertToStatefulSet object = inl cause →
     getStatefulSetDependencies cl object w =
       (([], Some (Errorf "failed to convert StatefulSet from unstructured object: " cause)),
        w)).
Proof.
  unfold getDeploymentDependencies, getJobDependencies, getPodDependencies,
    getDaemonSetDependencies, getStatefulSetDependencies.
  repeat split; intros ->; reflexivity.
Qed.

Lemma keysOf_empty (o : MapOrder) : keysOf o ∅ = [].
Proof. apply Permutation_nil_r. rewrite (keysOf_perm o ∅). by rewrite elements_empty. Qed.

(** C7. A successful extraction returns a list made of three groups in
    this order: references of kind ConfigMap, of kind Secret, of kind
    Service, every one with apiVersion v1; and when the scanners and the
    matcher find nothing, the pod pipeline that every extractor ends in
    returns the empty list and no error. *)
Theorem result_is_grouped_by_kind
    (gvk : GroupVersionKind) (extractor : dependenciesInterpreter)
    (cl : Client) (object : Unstructured) (w : World) :
  getAllDefaultDependenciesInterpreter !! gvk = Some extractor →
  (∀ refs,
     (extractor cl object w).1 = (refs, None) →
     ∃ configMaps secrets services,
       refs = configMaps ++ secrets ++ services ∧
       Forall (λ r, APIVersion r = "v1" ∧ Kind r = "ConfigMap") configMaps ∧
       Forall (λ r, APIVersion r = "v1" ∧ Kind r = "Secret") secrets ∧
       Forall (λ r, APIVersion r = "v1" ∧ Kind r = "Service") services)
  ∧ (∀ podObj items,
       extractor cl object w = getDependenciesFromPodTemplate cl podObj w →
       List cl (mkListOptions (Pod_Namespace podObj)) = inr items →
       getConfigMapNames podObj = ∅ →
       getSecretNames podObj = ∅ →
       getDependentServiceNames (Pod_Labels podObj) items = ∅ →
       (extractor cl object w).1 = ([], None)).
Proof.
  intros Hreg. split.
  - intros refs Hres.
    destruct (registry_stopsOrRuns _ _ Hreg object) as [[err Hstop]|[podObj Hrun]].
    { rewrite Hstop in Hres. discriminate Hres. }
    rewrite Hrun in Hres.
    apply getDependenciesFromPodTemplate_ok in Hres as (items & _ & ->).
    eexists _, _, _. split; [reflexivity|].
    repeat split; apply Forall_fmap, Forall_true; done.
  - intros podObj items -> Hitems Hcm Hsecret Hsvc.
    rewrite getDependenciesFromPodTemplate_run. simpl.
    rewrite Hitems, Hcm, Hsecret, Hsvc. simpl.
    by rewrite !keysOf_empty.
Qed.

(** C8. A workload whose kind has no entry in the registry makes the
    dispatcher answer [UnsupportedKind], with the world untouched; that
    signal differs from every result an extractor can return, failures and
    the empty success included. *)
Theorem unregistered_kind_is_signalled
    (cl : Client) (object : Unstructured) (w : World) :
  getAllDefaultDependenciesInterpreter !! Unstructured_GroupVersionKind object = None →
  Dispatch cl object w = (UnsupportedKind, w)
  ∧ (∀ result, UnsupportedKind ≠ Extracted result).
Proof.
  intros Habsent. split; [|discriminate].
  unfold Dispatch.
  destruct (getAllDefaultDependenciesInterpreter !! _) as [extractor|] eqn:Hlookup;
    [|reflexivity].
  exfalso. revert Hlookup. unfold dependenciesInterpreter in *. rewrite Habsent.
  discriminate.
Qed.

(** C9. For a fixed client and object, two calls of the same extractor,
    under any two worlds and hence any iteration orders, return the same
    error, lists that are permutations of each other, and so the same set
    of (kind, name) pairs. *)
Theorem result_is_deterministic_as_a_set
    (gvk : GroupVersionKind) (extractor : dependenciesInterpreter)
    (cl : Client) (object : Unstructured) (w1 w2 : World) :
  getAllDefaultDependenciesInterpreter !! gvk = Some extractor →
  (extractor cl object w1).1.2 = (extractor cl object w2).1.2
  ∧ (extractor cl object w1).1.1 ≡ₚ (extractor cl object w2).1.1
  ∧ kindNameSet (extractor cl object w1).1.1 = kindNameSet (extractor cl object w2).1.1.
Proof.
  intros Hreg.
  assert ((extractor cl object w1).1.2 = (extractor cl object w2).1.2
          ∧ (extractor cl object w1).1.1 ≡ₚ (extractor cl object w2).1.1) as [Herr Hperm].
  { destruct (registry_stopsOrRuns _ _ Hreg object) as [[err Hstop]|[podObj Hrun]].
    - by rewrite !Hstop.
    - rewrite !Hrun, !getDependenciesFromPodTemplate_run. simpl.
      destruct (List cl _) as [err|items]; simpl; [done|].
      split; [done|].
      by rewrite !(keysOf_perm (orders w1 _)), !(keysOf_perm (orders w2 _)). }
  split; [done|]. split; [done|].
  unfold kindNameSet. by rewrite Hperm.
Qed.

(** C10. The registry has exactly five keys: apps/v1 Deployment, batch/v1
    Job, v1 Pod of the core group, apps/v1 DaemonSet and apps/v1
    StatefulSet, each mapped to the extractor of its kind. *)
Theorem registry_has_five_kinds :
  dom getAllDefaultDependenciesInterpreter =
    {[ WithKind appsv1_SchemeGroupVersion DeploymentKind;
       WithKind batchv1_SchemeGroupVersion JobKind;
       WithKind corev1_SchemeGroupVersion PodKind;
       WithKind appsv1_SchemeGroupVersion DaemonSetKind;
       WithKind appsv1_SchemeGroupVersion StatefulSetKind ]}
  ∧ size getAllDefaultDependenciesInterpreter = 5
  ∧ getAllDefaultDependenciesInterpreter !! mkGVK "apps" "v1" "Deployment"
      = Some getDeploymentDependencies
  ∧ getAllDefaultDependenciesInterpreter !! mkGVK "batch" "v1" "Job"
      = Some getJobDependencies
  ∧ getAllDefaultDependenciesInterpreter !! mkGVK "" "v1" "Pod"
      = Some getPodDependencies
  ∧ getAllDefaultDependenciesInterpreter !! mkGVK "apps" "v1" "DaemonSet"
      = Some getDaemonSetDependencies
  ∧ getAllDefaultDependenciesInterpreter !! mkGVK "apps" "v1" "StatefulSet"
      = Some getStatefulSetDependencies.
Proof.
  split.
  { unfold getAllDefaultDependenciesInterpreter. simpl.
    rewrite !dom_insert_L, dom_empty_L. set_solver. }
  split.
  { unfold getAllDefaultDependenciesInterpreter. simpl.
    rewrite !map_size_insert_None, map_size_empty; [done|..];
      rewrite ?lookup_insert_ne by done; apply lookup_empty. }
  repeat split; apply registry_lookup; tauto.
Qed.

End Claims.

(** ** The claims on the concrete cluster *)

Lemma references_are_unique_witness :
  getAllDefaultDependenciesInterpreter !! WithKind appsv1_SchemeGroupVersion DeploymentKind
    = Some getDeploymentDependencies
  ∧ (getDeploymentDependencies Fixture.cluster (Fixture.deployment (Some Fixture.webPod))
       Fixture.world0).1 = (Fixture.webRefs, None)
  ∧ NoDup (refKey <$> Fixture.webRefs)
  ∧ ∃ podObj items,
      getDeploymentDependencies Fixture.cluster (Fixture.deployment (Some Fixture.webPod))
        Fixture.world0
        = getDependenciesFromPodTemplate Fixture.cluster podObj Fixture.world0
      ∧ List Fixture.cluster (mkListOptions (Pod_Namespace podObj)) = inr items
      ∧ ∀ kind name ns,
          (kind, name, ns) ∈ refKey <$> Fixture.webRefs ↔
          ns = Pod_Namespace podObj ∧
          ((kind = "ConfigMap" ∧ name ∈ getConfigMapNames podObj)
           ∨ (kind = "Secret" ∧ name ∈ getSecretNames podObj)
           ∨ (kind = "Service" ∧
              name ∈ getDependentServiceNames (Pod_Labels podObj) items)).
Proof.
  assert (getAllDefaultDependenciesInterpreter
            !! WithKind appsv1_SchemeGroupVersion DeploymentKind
          = Some getDeploymentDependencies) as Hreg
    by (apply registry_lookup; tauto).
  split; [exact Hreg|]. split; [reflexivity|].
  exact (references_are_unique _ _ Fixture.cluster
           (Fixture.deployment (Some Fixture.webPod)) Fixture.world0 Fixture.webRefs
           Hreg eq_refl).
Defined.

Lemma list_failure_is_propagated_witness :
  List Fixture.unreachable (mkListOptions "default")
    = inl (errorString "connection refused")
  ∧ (getDependenciesFromPodTemplate Fixture.unreachable Fixture.webPod Fixture.world0).1
    = ([], Some (errorString "connection refused")).
Proof.
  split; [reflexivity|].
  refine (proj2 (proj1 (list_failure_is_propagated Fixture.unreachable
                          (mkListOptions "default") (errorString "connection refused")
                          eq_refl)
                   Fixture.webPod Fixture.world0 eq_refl)).
Defined.

Lemma result_is_grouped_by_kind_witness :
  getAllDefaultDependenciesInterpreter !! WithKind corev1_SchemeGroupVersion PodKind
    = Some getPodDependencies
  ∧ (getPodDependencies Fixture.emptyCluster (Fixture.pod (Some Fixture.barePod))
       Fixture.world1).1 = ([], None)
  ∧ ∃ configMaps secrets services,
      Fixture.webRefs = configMaps ++ secrets ++ services ∧
      Forall (λ r, APIVersion r = "v1" ∧ Kind r = "ConfigMap") configMaps ∧
      Forall (λ r, APIVersion r = "v1" ∧ Kind r = "Secret") secrets ∧
      Forall (λ r, APIVersion r = "v1" ∧ Kind r = "Service") services.
Proof.
  assert (getAllDefaultDependenciesInterpreter !! WithKind corev1_SchemeGroupVersion PodKind
          = Some getPodDependencies) as Hreg
    by (apply registry_lookup; tauto).
  split; [exact Hreg|]. split.
  - refine (proj2 (result_is_grouped_by_kind _ _ Fixture.emptyCluster
                     (Fixture.pod (Some Fixture.barePod)) Fixture.world1 Hreg)
              Fixture.barePod [] eq_refl eq_refl eq_refl eq_refl eq_refl).
  - refine (proj1 (result_is_grouped_by_kind _ _ Fixture.cluster
                     (Fixture.pod (Some Fixture.webPod)) Fixture.world0 Hreg)
              Fixture.webRefs eq_refl).
Defined.

Lemma unregistered_kind_is_signalled_witness :
  getAllDefaultDependenciesInterpreter
    !! Unstructured_GroupVersionKind (Fixture.replicaSet (Some Fixture.webPod)) = None
  ∧ Dispatch Fixture.cluster (Fixture.replicaSet (Some Fixture.webPod)) Fixture.world0
    = (UnsupportedKind, Fixture.world0)
  ∧ (∀ result, UnsupportedKind ≠ Extracted result).
Proof.
  assert (getAllDefaultDependenciesInterpreter
            !! Unstructured_GroupVersionKind (Fixture.replicaSet (Some Fixture.webPod))
          = None) as Habsent by reflexivity.
  split; [exact Habsent|].
  exact (unregistered_kind_is_signalled Fixture.cluster
           (Fixture.replicaSet (Some Fixture.webPod)) Fixture.world0 Habsent).
Defined.

Lemma result_is_deterministic_as_a_set_witness :
  getAllDefaultDependenciesInterpreter !! WithKind appsv1_SchemeGroupVersion DeploymentKind
    = Some getDeploymentDependencies
  ∧ (getDeploymentDependencies Fixture.cluster (Fixture.deployment (Some Fixture.webPod))
       Fixture.world0).1.1
    ≠ (getDeploymentDependencies Fixture.cluster (Fixture.deployment (Some Fixture.webPod))
         Fixture.world1).1.1
  ∧ kindNameSet
      (getDeploymentDependencies Fixture.cluster (Fixture.deployment (Some Fixture.webPod))
         Fixture.world0).1.1
    = kindNameSet
        (getDeploymentDependencies Fixture.cluster
           (Fixture.deployment (Some Fixture.webPod)) Fixture.world1).1.1.
Proof.
  assert (getAllDefaultDependenciesInterpreter
            !! WithKind appsv1_SchemeGroupVersion DeploymentKind
          = Some getDeploymentDependencies) as Hreg
    by (apply registry_lookup; tauto).
  split; [exact Hreg|]. split.
  - intros Heq. vm_compute in Heq. discriminate Heq.
  - exact (proj2 (proj2 (result_is_deterministic_as_a_set _ _ Fixture.cluster
                           (Fixture.deployment (Some Fixture.webPod))
                           Fixture.world0 Fixture.world1 Hreg))).
Defined.

Lemma conversion_failure_is_reported_witness :
  ConvertToDeployment (Fixture.deployment None)
    = inl (errorString "Deployment: required fields are missing")
  ∧ getDeploymentDependencies Fixture.unreachable (Fixture.deployment None) Fixture.world1
    = (([], Some (Errorf "failed to convert Deployment from unstructured object: "
                    (errorString "Deployment: required fields are missing"))),
       Fixture.world1).
Proof.
  split; [reflexivity|].
  exact (proj1 (conversion_failure_is_reported Fixture.unreachable (Fixture.deployment None)
                  Fixture.world1 (errorString "Deployment: required fields are missing"))
           eq_refl).
Defined.

(** ** Runs on the concrete cluster *)

(** The matcher on the five services: the LoadBalancer, the nil selector
    and the mismatch on [tier] are left out, the empty selector is kept. *)
Example matcher_on_cluster :
  getDependentServiceNames {["app" := "web"; "tier" := "frontend"]}
    [Fixture.svc_a; Fixture.svc_b; Fixture.svc_lb; Fixture.svc_nil; Fixture.svc_all]
  = {["svc-a"; "svc-all"]}.
Proof. reflexivity. Qed.

(** A second Service named like a nil-selector one brings the name in. *)
Example matcher_on_homonyms :
  getDependentServiceNames {["app" := "web"]}
    [Fixture.svc_nil; mkService "svc-nil" ServiceTypeClusterIP (Some {["app" := "web"]})]
  = {["svc-nil"]}.
Proof. reflexivity. Qed.

(** [app-config], referenced by a variable and by a volume, comes out once;
    the other iteration order gives the same references in another order. *)
Example deployment_under_world0 :
  (getDeploymentDependencies Fixture.cluster (Fixture.deployment (Some Fixture.webPod))
     Fixture.world0).1 = (Fixture.webRefs, None).
Proof. reflexivity. Qed.

Example deployment_under_world1 :
  (getDeploymentDependencies Fixture.cluster (Fixture.deployment (Some Fixture.webPod))
     Fixture.world1).1
  = ([mkRef "v1" "ConfigMap" "default" "flags";
      mkRef "v1" "ConfigMap" "default" "app-config";
      mkRef "v1" "Secret" "default" "db-pass";
      mkRef "v1" "Secret" "default" "regcred";
      mkRef "v1" "Service" "default" "svc-a";
      mkRef "v1" "Service" "default" "svc-all"], None).
Proof. reflexivity. Qed.

(** A failed read drops the references collected before it, and is the one
    read of the call. *)
Example deployment_unreachable :
  (getDeploymentDependencies Fixture.unreachable
     (Fixture.deployment (Some Fixture.webPod)) Fixture.world0).1
  = ([], Some (errorString "connection refused"))
  ∧ reads (getDeploymentDependencies Fixture.unreachable
             (Fixture.deployment (Some Fixture.webPod)) Fixture.world0).2
    = [mkListOptions "default"].
Proof. split; reflexivity. Qed.

(** An object that cannot be converted: no read, the world as it was. *)
Example deployment_malformed :
  getDeploymentDependencies Fixture.cluster (Fixture.deployment None) Fixture.world0
  = (([], Some (errorString
                  "failed to convert Deployment from unstructured object: Deployment: required fields are missing")),
     Fixture.world0).
Proof. reflexivity. Qed.


(** * Further properties of the service matcher *)

(** X1. The matcher returns exactly the names of the Services of the list
    that are not of type LoadBalancer, have a non-nil selector, and whose
    selector pairs are all among the pod's labels. *)
Theorem matcher_returns_the_selected_names
    (podLabels : gmap string string) (serviceList : list Service) (name : string) :
  name ∈ getDependentServiceNames podLabels serviceList ↔
  ∃ service, service ∈ serviceList ∧ name = Service_Name service ∧
             Service_Type service ≠ ServiceTypeLoadBalancer ∧
             ∃ selector, Service_Selector service = Some selector ∧
                         ∀ k v, selector !! k = Some v → podLabels !! k = Some v.
Proof. apply getDependentServiceNames_elem. Qed.

(** X2. The matcher on a concatenation of two lists returns the union of
    what it returns on each; on the empty list it returns the empty set. *)
Theorem matcher_distributes_over_append
    (podLabels : gmap string string) (first second : list Service) :
  getDependentServiceNames podLabels (first ++ second) =
    getDependentServiceNames podLabels first ∪ getDependentServiceNames podLabels second
  ∧ getDependentServiceNames podLabels [] = ∅.
Proof.
  split; [|reflexivity].
  apply set_eq. intros name.
  rewrite elem_of_union, !getDependentServiceNames_elem. split.
  - intros (s & [Hin|Hin]%elem_of_app & Hrest); [left|right]; by exists s.
  - intros [(s & Hin & Hrest)|(s & Hin & Hrest)]; exists s;
      (split; [apply elem_of_app; tauto|done]).
Qed.

(** X3. The order of the Service list does not matter: two lists that are
    permutations of each other give the same set of names. *)
Theorem matcher_ignores_list_order
    (podLabels : gmap string string) (serviceList serviceList' : list Service) :
  serviceList ≡ₚ serviceList' →
  getDependentServiceNames podLabels serviceList =
  getDependentServiceNames podLabels serviceList'.
Proof.
  intros Hperm. apply set_eq. intros name.
  rewrite !getDependentServiceNames_elem.
  split; intros (s & Hin & Hrest); exists s; (split; [|done]).
  - by rewrite <- Hperm.
  - by rewrite Hperm.
Qed.

Lemma matcher_ignores_list_order_witness :
  [Fixture.svc_a; Fixture.svc_lb; Fixture.svc_all]
    ≡ₚ [Fixture.svc_lb; Fixture.svc_a; Fixture.svc_all]
  ∧ getDependentServiceNames {["app" := "web"]}
      [Fixture.svc_a; Fixture.svc_lb; Fixture.svc_all]
    = getDependentServiceNames {["app" := "web"]}
        [Fixture.svc_lb; Fixture.svc_a; Fixture.svc_all].
Proof.
  assert ([Fixture.svc_a; Fixture.svc_lb; Fixture.svc_all]
            ≡ₚ [Fixture.svc_lb; Fixture.svc_a; Fixture.svc_all]) as Hperm
    by apply perm_swap.
  split; [exact Hperm|].
  exact (matcher_ignores_list_order {["app" := "web"]} _ _ Hperm).
Defined.

(** X4. Labels added to a pod never remove a Service from the result: when
    every label of one pod is a label of the other, every name returned for
    the first is returned for the second. *)
Theorem matcher_is_monotone_in_labels
    (podLabels podLabels' : gmap string string) (serviceList : list Service) :
  podLabels ⊆ podLabels' →
  getDependentServiceNames podLabels serviceList ⊆
  getDependentServiceNames podLabels' serviceList.
Proof.
  intros Hsub name.
  rewrite !getDependentServiceNames_elem.
  intros (s & Hin & Hname & Htype & selector & Hsel & Hall).
  exists s. split; [done|]. split; [done|]. split; [done|].
  exists selector. split; [done|]. intros k v Hkv.
  eapply lookup_weaken; [by apply Hall|done].
Qed.

Lemma matcher_is_monotone_in_labels_witness :
  ({["app" := "web"]} : gmap string string) ⊆ {["app" := "web"; "tier" := "frontend"]}
  ∧ getDependentServiceNames {["app" := "web"]} [Fixture.svc_a; Fixture.svc_b]
    ⊆ getDependentServiceNames {["app" := "web"; "tier" := "frontend"]}
        [Fixture.svc_a; Fixture.svc_b].
Proof.
  assert (({["app" := "web"]} : gmap string string)
            ⊆ {["app" := "web"; "tier" := "frontend"]}) as Hsub.
  { apply map_subseteq_spec. intros k v [<- <-]%lookup_singleton_Some. reflexivity. }
  split; [exact Hsub|].
  exact (matcher_is_monotone_in_labels _ _ [Fixture.svc_a; Fixture.svc_b] Hsub).
Defined.

(** X5. A selector that is empty but not nil selects every pod: a Service
    with such a selector and a type other than LoadBalancer is in the
    result for every label map, the empty one included. *)
Theorem empty_selector_selects_every_pod
    (podLabels : gmap string string) (serviceList : list Service) (service : Service) :
  service ∈ serviceList →
  Service_Type service ≠ ServiceTypeLoadBalancer →
  Service_Selector service = Some ∅ →
  Service_Name service ∈ getDependentServiceNames podLabels serviceList.
Proof.
  intros Hin Htype Hsel. apply getDependentServiceNames_elem.
  exists service. split; [done|]. split; [done|]. split; [done|].
  exists ∅. split; [done|]. intros k v Hkv. by rewrite lookup_empty in Hkv.
Qed.

Lemma empty_selector_selects_every_pod_witness :
  Fixture.svc_all ∈ [Fixture.svc_nil; Fixture.svc_all]
  ∧ Service_Type Fixture.svc_all ≠ ServiceTypeLoadBalancer
  ∧ Service_Selector Fixture.svc_all = Some ∅
  ∧ Service_Name Fixture.svc_all ∈
      getDependentServiceNames ∅ [Fixture.svc_nil; Fixture.svc_all].
Proof.
  assert (Fixture.svc_all ∈ [Fixture.svc_nil; Fixture.svc_all]) as Hin
    by (apply list_elem_of_further, list_elem_of_here).
  assert (Service_Type Fixture.svc_all ≠ ServiceTypeLoadBalancer) as Htype by discriminate.
  split; [exact Hin|]. split; [exact Htype|]. split; [reflexivity|].
  exact (empty_selector_selects_every_pod ∅ _ Fixture.svc_all Hin Htype eq_refl).
Defined.

(** X6. For a pod without labels the matcher returns exactly the names of
    the Services, not of type LoadBalancer, whose selector is empty but not
    nil. *)
Theorem matcher_on_an_unlabelled_pod (serviceList : list Service) (name : string) :
  name ∈ getDependentServiceNames ∅ serviceList ↔
  ∃ service, service ∈ serviceList ∧ name = Service_Name service ∧
             Service_Type service ≠ ServiceTypeLoadBalancer ∧
             Service_Selector service = Some ∅.
Proof.
  rewrite getDependentServiceNames_elem. split.
  - intros (s & Hin & Hname & Htype & selector & Hsel & Hall).
    exists s. split; [done|]. split; [done|]. split; [done|].
    rewrite Hsel. f_equal. apply map_empty. intros k.
    destruct (selector !! k) as [v|] eqn:Hkv; [|done].
    apply Hall in Hkv. by rewrite lookup_empty in Hkv.
  - intros (s & Hin & Hname & Htype & Hsel).
    exists s. split; [done|]. split; [done|]. split; [done|].
    exists ∅. split; [done|]. intros k v Hkv. by rewrite lookup_empty in Hkv.
Qed.

(** * Further properties of the extractors *)

Section MoreOnExtractors.
Context `{Collaborators}.

(** X7. For the four controller kinds, when the conversion succeeds and
    [GetPodFromTemplate] fails, the extractor returns a nil list and that
    very error, not wrapped in a message of its own, and leaves the world
    as it was: no Service-list read is made. *)
Theorem template_failure_is_returned_as_is
    (cl : Client) (object : Unstructured) (w : World) (err : error) :
  (∀ typed, ConvertToDeployment object = inr typed →
     GetPodFromTemplate (Deployment_Spec_Template typed) (Deployment_Object typed) None
       = inl err →
     getDeploymentDependencies cl object w = (([], Some err), w))
  ∧ (∀ typed, ConvertToJob object = inr typed →
       GetPodFromTemplate (Job_Spec_Template typed) (Job_Object typed) None = inl err →
       getJobDependencies cl object w = (([], Some err), w))
  ∧ (∀ typed, ConvertToDaemonSet object = inr typed →
       GetPodFromTemplate (DaemonSet_Spec_Template typed) (DaemonSet_Object typed) None
         = inl err →
       getDaemonSetDependencies cl object w = (([], Some err), w))
  ∧ (∀ typed, ConvertToStatefulSet object = inr typed →
       GetPodFromTemplate (StatefulSet_Spec_Template typed) (StatefulSet_Object typed) None
         = inl err →
       getStatefulSetDependencies cl object w = (([], Some err), w)).
Proof.
  unfold getDeploymentDependencies, getJobDependencies, getDaemonSetDependencies,
    getStatefulSetDependencies.
  repeat split; intros typed -> ->; reflexivity.
Qed.

(** X8. A call of an extractor of the registry makes at most one
    Service-list read: either it returns a nil list and an error and leaves
    the world as it was, or it runs the pod pipeline on the pod it resolved
    and adds exactly one read to the log, with that pod's namespace. *)
Theorem extractor_reads_at_most_once
    (gvk : GroupVersionKind) (extractor : dependenciesInterpreter)
    (cl : Client) (object : Unstructured) (w : World) :
  getAllDefaultDependenciesInterpreter !! gvk = Some extractor →
  ((extractor cl object w).2 = w ∧ ∃ err, (extractor cl object w).1 = ([], Some err))
  ∨ (∃ podObj,
       extractor cl object w = getDependenciesFromPodTemplate cl podObj w ∧
       reads (extractor cl object w).2
         = reads w ++ [mkListOptions (Pod_Namespace podObj)]).
Proof.
  intros Hreg.
  destruct (registry_stopsOrRuns _ _ Hreg object) as [[err Hstop]|[podObj Hrun]].
  - left. rewrite Hstop. split; [done|]. by exists err.
  - right. exists podObj. split; [done|].
    rewrite Hrun. apply getDependenciesFromPodTemplate_reads.
Qed.

(** X9. The pod pipeline looks at the cluster through the one read for the
    pod's namespace only: two clients that answer that read alike give the
    same result and leave the same world. *)
Theorem pipeline_depends_on_one_read
    (cl cl' : Client) (podObj : Pod) (w : World) :
  List cl (mkListOptions (Pod_Namespace podObj))
    = List cl' (mkListOptions (Pod_Namespace podObj)) →
  getDependenciesFromPodTemplate cl podObj w = getDependenciesFromPodTemplate cl' podObj w.
Proof.
  intros Hsame. rewrite !getDependenciesFromPodTemplate_run. simpl. by rewrite Hsame.
Qed.

(** X10. A successful result of the pod pipeline has as many references as
    there are ConfigMap names, Secret names and matching Service names
    together. *)
Theorem result_length_is_the_sum_of_the_sets
    (cl : Client) (podObj : Pod) (w : World) (items : list Service)
    (refs : list DependentObjectReference) :
  List cl (mkListOptions (Pod_Namespace podObj)) = inr items →
  (getDependenciesFromPodTemplate cl podObj w).1 = (refs, None) →
  length refs =
    size (getConfigMapNames podObj) + size (getSecretNames podObj)
    + size (getDependentServiceNames (Pod_Labels podObj) items).
Proof.
  intros Hitems (items' & Hitems' & ->)%getDependenciesFromPodTemplate_ok.
  rewrite Hitems in Hitems'. injection Hitems' as <-.
  rewrite !length_app, !length_fmap, !(keysOf_perm (orders w _)).
  unfold size, set_size. simpl. lia.
Qed.

(** X11. The pod pipeline fails only when the read fails: it returns an
    error exactly when the Service-list read for the pod's namespace
    returned that error, and then the list is nil. *)
Theorem pipeline_fails_only_with_the_read
    (cl : Client) (podObj : Pod) (w : World) (err : error) :
  (getDependenciesFromPodTemplate cl podObj w).1.2 = Some err ↔
  List cl (mkListOptions (Pod_Namespace podObj)) = inl err.
Proof.
  rewrite getDependenciesFromPodTemplate_run. simpl.
  destruct (List cl _) as [err'|items]; simpl.
  - split; intros [= ->]; reflexivity.
  - split; discriminate.
Qed.

End MoreOnExtractors.

Lemma template_failure_is_returned_as_is_witness :
  @ConvertToDeployment Strict.collaborators (Fixture.deployment (Some Strict.orphan))
    = inr Strict.orphan
  ∧ @GetPodFromTemplate Strict.collaborators Strict.orphan Strict.orphan None
    = inl (errorString "parentObject does not have ObjectMeta")
  ∧ @getDeploymentDependencies Strict.collaborators Fixture.cluster
      (Fixture.deployment (Some Strict.orphan)) Fixture.world1
    = (([], Some (errorString "parentObject does not have ObjectMeta")), Fixture.world1).
Proof.
  split; [reflexivity|]. split; [reflexivity|].
  exact (proj1 (@template_failure_is_returned_as_is Strict.collaborators Fixture.cluster
                  (Fixture.deployment (Some Strict.orphan)) Fixture.world1
                  (errorString "parentObject does not have ObjectMeta"))
           Strict.orphan eq_refl eq_refl).
Defined.

Lemma extractor_reads_at_most_once_witness :
  getAllDefaultDependenciesInterpreter !! WithKind batchv1_SchemeGroupVersion JobKind
    = Some getJobDependencies
  ∧ (((getJobDependencies Fixture.cluster (Fixture.job (Some Fixture.webPod))
         Fixture.world1).2 = Fixture.world1
      ∧ ∃ err, (getJobDependencies Fixture.cluster (Fixture.job (Some Fixture.webPod))
                  Fixture.world1).1 = ([], Some err))
     ∨ (∃ podObj,
          getJobDependencies Fixture.cluster (Fixture.job (Some Fixture.webPod))
            Fixture.world1
            = getDependenciesFromPodTemplate Fixture.cluster podObj Fixture.world1
          ∧ reads (getJobDependencies Fixture.cluster (Fixture.job (Some Fixture.webPod))
                     Fixture.world1).2
            = reads Fixture.world1 ++ [mkListOptions (Pod_Namespace podObj)])).
Proof.
  assert (getAllDefaultDependenciesInterpreter !! WithKind batchv1_SchemeGroupVersion JobKind
          = Some getJobDependencies) as Hreg
    by (apply registry_lookup; tauto).
  split; [exact Hreg|].
  exact (@extractor_reads_at_most_once Fixture.collaborators _ _ Fixture.cluster
           (Fixture.job (Some Fixture.webPod)) Fixture.world1 Hreg).
Defined.

Lemma pipeline_depends_on_one_read_witness :
  List Fixture.cluster (mkListOptions (Pod_Namespace Fixture.webPod))
    = List Fixture.defaultOnly (mkListOptions (Pod_Namespace Fixture.webPod))
  ∧ getDependenciesFromPodTemplate Fixture.cluster Fixture.webPod Fixture.world0
    = getDependenciesFromPodTemplate Fixture.defaultOnly Fixture.webPod Fixture.world0.
Proof.
  split; [reflexivity|].
  exact (@pipeline_depends_on_one_read Fixture.collaborators Fixture.cluster
           Fixture.defaultOnly Fixture.webPod Fixture.world0 eq_refl).
Defined.

Lemma result_length_is_the_sum_of_the_sets_witness :
  List Fixture.cluster (mkListOptions (Pod_Namespace Fixture.webPod))
    = inr [Fixture.svc_a; Fixture.svc_b; Fixture.svc_lb; Fixture.svc_nil; Fixture.svc_all]
  ∧ (getDependenciesFromPodTemplate Fixture.cluster Fixture.webPod Fixture.world0).1
    = (Fixture.webRefs, None)
  ∧ length Fixture.webRefs =
      size (getConfigMapNames Fixture.webPod) + size (getSecretNames Fixture.webPod)
      + size (getDependentServiceNames (Pod_Labels Fixture.webPod)
                [Fixture.svc_a; Fixture.svc_b; Fixture.svc_lb; Fixture.svc_nil;
                 Fixture.svc_all]).
Proof.
  split; [reflexivity|]. split; [reflexivity|].
  exact (@result_length_is_the_sum_of_the_sets Fixture.collaborators Fixture.cluster
           Fixture.webPod Fixture.world0 _ Fixture.webRefs eq_refl eq_refl).
Defined.

(** * Properties of the proxy headers *)

(** ** Splitting at a separator *)

Lemma Split_not_nil (s : string) (sep : ascii) : Split s sep ≠ [].
Proof.
  destruct s as [|c rest]; simpl; [done|].
  destruct (Ascii.eqb c sep); [done|]. by destruct (Split rest sep).
Qed.

(** Joining the pieces with the separator gives the string back. *)
Lemma Split_concat (s : string) (sep : ascii) :
  String.concat (String sep EmptyString) (Split s sep) = s.
Proof.
  induction s as [|c rest IH]; simpl; [done|].
  destruct (Ascii.eqb_spec c sep) as [->|Hne].
  - pose proof (Split_not_nil rest sep) as Hnil.
    simpl. destruct (Split rest sep) as [|p ps]; [done|].
    simpl in *. by rewrite IH.
  - pose proof (Split_not_nil rest sep) as Hnil.
    destruct (Split rest sep) as [|p ps]; [done|].
    simpl in *. destruct ps as [|p' ps]; simpl in *; by rewrite <- IH.
Qed.

(** No piece holds the separator. *)
Lemma Split_pieces (s : string) (sep : ascii) :
  Forall (λ piece, countByte sep piece = 0) (Split s sep).
Proof.
  induction s as [|c rest IH]; simpl.
  - by repeat constructor.
  - destruct (Ascii.eqb c sep) eqn:Hc.
    + by constructor.
    + destruct (Split rest sep) as [|p ps]; simpl.
      * repeat constructor. simpl. by rewrite Hc.
      * inversion_clear IH as [|? ? Hp Hps]. constructor; [|done].
        simpl. by rewrite Hc.
Qed.

(** There is one piece more than there are separators. *)
Lemma Split_length (s : string) (sep : ascii) :
  length (Split s sep) = S (countByte sep s).
Proof.
  induction s as [|c rest IH]; simpl; [done|].
  destruct (Ascii.eqb c sep); simpl.
  - by rewrite IH.
  - pose proof (Split_not_nil rest sep) as Hnil.
    destruct (Split rest sep) as [|p ps]; [done|]. simpl in *. lia.
Qed.

(** A string without the separator is its own single piece. *)
Lemma Split_whole (s : string) (sep : ascii) :
  countByte sep s = 0 → Split s sep = [s].
Proof.
  induction s as [|c rest IH]; simpl; [done|].
  destruct (Ascii.eqb c sep); [discriminate|].
  intros Hrest. by rewrite IH.
Qed.

(** ** The loop of [ParseProxyHeaders] *)

Lemma foldl_assign (entries : list (string * string)) (acc : gmap string (list string)) :
  NoDup entries.*1 →
  foldl (λ proxyHeaders entry, <[entry.1 := Split entry.2 comma]> proxyHeaders) acc entries
  = ((λ values, Split values comma) <$> (list_to_map entries : gmap string string)) ∪ acc.
Proof.
  revert acc. induction entries as [|[key values] entries IH]; intros acc Hnodup; simpl.
  - by rewrite fmap_empty, (left_id_L ∅ (∪)).
  - apply NoDup_cons in Hnodup as [Hfresh Hnodup].
    rewrite IH by done. rewrite fmap_insert, <- insert_union_l.
    symmetry. apply insert_union_r.
    rewrite lookup_fmap. by rewrite (not_elem_of_list_to_map_1 _ _ Hfresh).
Qed.

Lemma assignProxyHeaders_perm
    (headers : gmap string string) (entries : list (string * string)) :
  entries ≡ₚ map_to_list headers →
  assignProxyHeaders entries = (λ values, Split values comma) <$> headers.
Proof.
  intros Hperm. unfold assignProxyHeaders.
  assert (NoDup entries.*1) as Hnodup.
  { rewrite Hperm. apply NoDup_fst_map_to_list. }
  rewrite foldl_assign by done. rewrite (right_id_L ∅ (∪)).
  by rewrite (list_to_map_proper _ _ Hnodup Hperm), list_to_map_to_list.
Qed.

(** X12. The loop of [ParseProxyHeaders] gives the same header map in
    whatever order the runtime hands out the entries of [headers]: each
    key is mapped to the pieces of its value between the commas. *)
Theorem assignProxyHeaders_any_order
    (headers : gmap string string) (entries : list (string * string)) :
  entries ≡ₚ map_to_list headers →
  assignProxyHeaders entries = (λ values, Split values comma) <$> headers.
Proof. apply assignProxyHeaders_perm. Qed.

Lemma ParseProxyHeaders_eq (headers : gmap string string) :
  ParseProxyHeaders headers =
  if decide (headers = ∅) then None
  else Some ((λ values, Split values comma) <$> headers).
Proof.
  unfold ParseProxyHeaders.
  destruct (Nat.eqb_spec (size headers) 0) as [Hsize|Hsize].
  - apply map_size_empty_iff in Hsize. by rewrite decide_True.
  - apply map_size_non_empty_iff in Hsize. rewrite decide_False by done.
    by rewrite (assignProxyHeaders_perm headers).
Qed.

Lemma assignProxyHeaders_any_order_witness :
  [("Proxy-Authorization", "Basic abc"); ("x-trace", "a, b,,c")]
    ≡ₚ map_to_list Wire.headers0
  ∧ assignProxyHeaders [("Proxy-Authorization", "Basic abc"); ("x-trace", "a, b,,c")]
    = (λ values, Split values comma) <$> Wire.headers0.
Proof.
  assert ([("Proxy-Authorization", "Basic abc"); ("x-trace", "a, b,,c")]
            ≡ₚ map_to_list Wire.headers0) as Hperm
    by (vm_compute; apply perm_swap).
  split; [exact Hperm|].
  exact (assignProxyHeaders_any_order Wire.headers0 _ Hperm).
Defined.

(** X13. [ParseProxyHeaders] returns nil exactly for a map without entries;
    otherwise the header map it returns has the keys of [headers], as they
    are, and no others. *)
Theorem ParseProxyHeaders_keeps_the_keys (headers : gmap string string) :
  (ParseProxyHeaders headers = None ↔ headers = ∅)
  ∧ (∀ proxyHeaders,
       ParseProxyHeaders headers = Some proxyHeaders →
       dom proxyHeaders = dom headers ∧ proxyHeaders ≠ ∅).
Proof.
  rewrite ParseProxyHeaders_eq. destruct (decide (headers = ∅)) as [->|Hne].
  - split; [done|]. intros ? [=].
  - split; [split; [discriminate|done]|]. intros proxyHeaders [= <-].
    split; [apply dom_fmap_L|]. by intros ?%fmap_empty_inv.
Qed.

(** X14. In the header map that [ParseProxyHeaders] returns, the values of
    a key are the pieces of the configured string between its commas, kept
    as they are: joined with commas they give the string back, none holds
    a comma, and there is one more of them than there are commas, so at
    least one; a string without a comma, the empty one included, is the
    single value. *)
Theorem ParseProxyHeaders_splits_at_commas
    (headers : gmap string string) (proxyHeaders : gmap string (list string))
    (key values : string) :
  ParseProxyHeaders headers = Some proxyHeaders →
  headers !! key = Some values →
  ∃ pieces,
    proxyHeaders !! key = Some pieces ∧
    String.concat "," pieces = values ∧
    Forall (λ piece, countByte comma piece = 0) pieces ∧
    length pieces = S (countByte comma values) ∧
    (countByte comma values = 0 → pieces = [values]).
Proof.
  rewrite ParseProxyHeaders_eq. destruct (decide (headers = ∅)); [done|].
  intros [= <-] Hkey. exists (Split values comma).
  split; [by rewrite lookup_fmap, Hkey|].
  split; [apply (Split_concat values comma)|].
  split; [apply Split_pieces|]. split; [apply Split_length|apply Split_whole].
Qed.

Lemma ParseProxyHeaders_splits_at_commas_witness :
  ParseProxyHeaders Wire.headers0 = Some Wire.parsed0
  ∧ Wire.headers0 !! "x-trace" = Some "a, b,,c"
  ∧ ∃ pieces,
      Wire.parsed0 !! "x-trace" = Some pieces ∧
      String.concat "," pieces = "a, b,,c" ∧
      Forall (λ piece, countByte comma piece = 0) pieces ∧
      length pieces = S (countByte comma "a, b,,c") ∧
      (countByte comma "a, b,,c" = 0 → pieces = ["a, b,,c"]).
Proof.
  split; [reflexivity|]. split; [reflexivity|].
  exact (ParseProxyHeaders_splits_at_commas Wire.headers0 Wire.parsed0 "x-trace" "a, b,,c"
           eq_refl eq_refl).
Defined.

(** ** Round trips *)

Section RoundTrips.
Context `{NetHTTP}.
Variable Transport_RoundTrip : Transport → Request → Reply.
Variable Foreign_RoundTrip : Foreign → Request → Heap → option (Reply * Heap).

(** X15. A round trip through a wrapper built, without an inner wrapper
    function, around a transport overwrites the transport's
    [ProxyConnectHeader] with the parsed headers, or with nil when no
    header is configured, whatever it held before; the transport then does
    the round trip, and nothing else in the heap changes. *)
Theorem wrapper_installs_the_parsed_headers
    (headers : gmap string string) (tr : positive) (transport : Transport)
    (req : Request) (heap : Heap) :
  heap !! tr = Some transport →
  let installed :=
    mkTransport (if decide (headers = ∅) then None
                 else Some ((λ values, Split values comma) <$> headers))
                (Transport_rest transport) in
  RoundTrip Transport_RoundTrip Foreign_RoundTrip
    (NewProxyHeaderRoundTripperWrapperConstructor None headers (HttpTransport tr)) req heap
  = Some (Transport_RoundTrip installed req, <[tr := installed]> heap).
Proof.
  intros Hcell. simpl. rewrite Hcell. by rewrite ParseProxyHeaders_eq.
Qed.

(** X16. The headers reach a transport only when the wrapper sits on it
    directly.  When the inner wrapper function returns anything but a
    transport (another wrapper, say), the round trip is that of what it
    returned, for every choice of headers: they are dropped without a
    sign. *)
Theorem headers_need_a_transport
    (wt : WrapperFunc) (headers : gmap string string)
    (rt : RoundTripper) (req : Request) (heap : Heap) :
  (∀ tr, wt rt ≠ HttpTransport tr) →
  RoundTrip Transport_RoundTrip Foreign_RoundTrip
    (NewProxyHeaderRoundTripperWrapperConstructor (Some wt) headers rt) req heap
  = RoundTrip Transport_RoundTrip Foreign_RoundTrip (wt rt) req heap.
Proof.
  intros Hother. unfold NewProxyHeaderRoundTripperWrapperConstructor.
  destruct (wt rt) as [|tr|proxyHeaders inner|foreign] eqn:Hinner; try reflexivity.
  by destruct (Hother tr).
Qed.



End RoundTrips.

Lemma wrapper_installs_the_parsed_headers_witness :
  Wire.heap0 !! 1%positive = Some (mkTransport (Some {["Via" := ["old"]]}) 7)
  ∧ RoundTrip Wire.send Wire.foreign
      (NewProxyHeaderRoundTripperWrapperConstructor None ∅ (HttpTransport 1)) "u" Wire.heap0
    = Some ((None, "u"), <[1%positive := mkTransport None 7]> Wire.heap0).
Proof.
  split; [reflexivity|].
  exact (wrapper_installs_the_parsed_headers Wire.send Wire.foreign ∅ 1%positive
           (mkTransport (Some {["Via" := ["old"]]}) 7) "u" Wire.heap0 eq_refl).
Defined.


Lemma headers_need_a_transport_witness :
  (∀ tr, NewProxyHeaderRoundTripperWrapperConstructor None Wire.headers0 (HttpTransport 1)
         ≠ HttpTransport tr)
  ∧ RoundTrip Wire.send Wire.foreign
      (NewProxyHeaderRoundTripperWrapperConstructor
         (Some (NewProxyHeaderRoundTripperWrapperConstructor None Wire.headers0))
         {["Via" := "outer"]} (HttpTransport 1)) "u" Wire.heap0
    = RoundTrip Wire.send Wire.foreign
        (NewProxyHeaderRoundTripperWrapperConstructor None Wire.headers0 (HttpTransport 1))
        "u" Wire.heap0.
Proof.
  assert (∀ tr, NewProxyHeaderRoundTripperWrapperConstructor None Wire.headers0
                  (HttpTransport 1) ≠ HttpTransport tr) as Hother
    by (intros tr; discriminate).
  split; [exact Hother|].
  exact (headers_need_a_transport Wire.send Wire.foreign
           (NewProxyHeaderRoundTripperWrapperConstructor None Wire.headers0)
           {["Via" := "outer"]} (HttpTransport 1) "u" Wire.heap0 Hother).
Defined.
